(** * elk-util: the snapshot restore script [elk_util/elk-cursor.py]

    A shallow embedding of the restore orchestration script and the
    properties of its selection engine, size parser, restore driver and
    run coordinator.

    Conventions of the embedding:
    - Python [int] is [Z]; a [str] is the [string] of its UTF-8 bytes:
      equality, order, prefixes and suffixes are the same on the bytes as
      on the code points, and the slices and number conversions, which go
      by code points, find them in the bytes;
    - the snapshot-side dict [{name: size_in_bytes}] is an association list
      in insertion order, which is the order Python iterates a dict in;
      the local-side dict, which is only looked up, is a [gmap];
    - HTTP calls go through an oracle (the two clusters) that is threaded
      through the program together with the trace of what the script did;
    - [datetime.fromtimestamp], whose answer depends on the platform, is
      a parameter of the script. *)

From Stdlib Require Import ZArith NArith SpecFloat Ascii.
From stdpp Require Import base option list sorting gmap strings.

Local Open Scope Z_scope.

(** ** Configuration (elk-cursor.py, lines 16-39) *)

Definition SNAPSHOT_REPO : string := "snapshot-repo-2".

Definition MAX_RESTORE_BYTES : Z := 500 * 10 ^ 9.

Definition SYSTEM_INDICES : list string :=
  [ ".kibana"; ".kibana_"; ".security"; ".apm"; ".async-search";
    ".ds-"; ".internal."; ".slo-" ].

(** [s.startswith(prefix)] *)
Definition startswith (s pre : string) : bool := String.prefix pre s.

(** [any(index_name.startswith(prefix) for prefix in SYSTEM_INDICES)] *)
Definition is_system_index (index_name : string) : bool :=
  existsb (startswith index_name) SYSTEM_INDICES.

(** ** Selection engine (elk-cursor.py, lines 147-170) *)

(** The value [get_local_indices] stores per index: [{'docs': _, 'size': _}]. *)
Record local_index := LocalIndex { local_docs : Z; local_size : Z }.

(** [d.get(k)] on an insertion-ordered dict given as an association list. *)
Fixpoint dict_get {V} (d : list (string * V)) (k : string) : option V :=
  match d with
  | [] => None
  | (k', v) :: d' => if String.eqb k' k then Some v else dict_get d' k
  end.

(** The test of line 157, [not local or snap_size > local['size']], where
    [local = local_indices.get(idx)]: a stored entry is a two-key dict and
    so truthy, hence [not local] holds exactly when the index is absent. *)
Definition needs_restore (local_indices : gmap string local_index)
    (idx : string) (snap_size : Z) : bool :=
  match local_indices !! idx with
  | None => true
  | Some local => snap_size >? local_size local
  end.

(** The first loop (lines 149-159): the list [to_restore] of
    [(idx, snap_size)] pairs, in the iteration order of the snapshot dict. *)
Fixpoint to_restore (items : list (string * Z))
    (local_indices : gmap string local_index) : list (string * Z) :=
  match items with
  | [] => []
  | (idx, snap_size) :: items' =>
      if is_system_index idx then to_restore items' local_indices
      else if needs_restore local_indices idx snap_size
           then (idx, snap_size) :: to_restore items' local_indices
           else to_restore items' local_indices
  end.

(** [list.sort(key=...)] is a stable ascending sort on the key; a stable
    sort has one possible result, computed here by insertion: an element
    goes in front of the first later element whose key is not smaller. *)
Fixpoint insert_by_key {A} (key : A -> Z) (x : A) (l : list A) : list A :=
  match l with
  | [] => [x]
  | y :: l' => if key x <=? key y then x :: l else y :: insert_by_key key x l'
  end.

Fixpoint sort_by_key {A} (key : A -> Z) (l : list A) : list A :=
  match l with
  | [] => []
  | x :: l' => insert_by_key key x (sort_by_key key l')
  end.

(** [to_restore.sort(key=lambda x: -x[1])] (line 162) *)
Definition sort_largest_first (l : list (string * Z)) : list (string * Z) :=
  sort_by_key (fun x => - x.2) l.

(** The second loop (lines 163-170) with its two accumulators; the [break]
    of line 167 returns the batch built so far. *)
Fixpoint fill_batch (sorted : list (string * Z)) (batch : list string)
    (total : Z) : list string :=
  match sorted with
  | [] => batch
  | (idx, size) :: sorted' =>
      if total + size >? MAX_RESTORE_BYTES then batch
      else fill_batch sorted' (batch ++ [idx]) (total + size)
  end.

Definition pick_indices_to_restore (snapshot_indices : list (string * Z))
    (local_indices : gmap string local_index) : list string :=
  fill_batch (sort_largest_first (to_restore snapshot_indices local_indices)) [] 0.

(** Sum of a list of sizes. *)
Definition Zsum (l : list Z) : Z := foldr Z.add 0 l.

(** The snapshot size of a selected index, read back from the snapshot dict. *)
Definition snapshot_size (snapshot_indices : list (string * Z)) (idx : string) : Z :=
  default 0 (dict_get snapshot_indices idx).

(** ** Python values, exceptions and string conversions

    What the size parser (lines 109-134) uses of Python: [str.endswith],
    slicing, [float(str)], [float * int], [int(float)] and [int(str)].
    Floats are IEEE binary64 values, given by Corelib's [SpecFloat]. *)

(** The exceptions the script can meet. A [RequestException] carries
    whether its [response] attribute is a response (an [HTTPError] of
    [raise_for_status]) or [None] (no connection, timeout). [OSError] is
    the one that the C library reports through [datetime.fromtimestamp];
    a [RequestException], which [requests] derives from [IOError], is
    kept apart from it, as no [except] clause of the script names
    [OSError]. *)
Inductive exn :=
  | RequestException (has_response : bool)
  | ValueError
  | TypeError
  | OverflowError
  | OSError.

Inductive result (A : Type) := Ok (a : A) | Raise (e : exn).
Arguments Ok {A} a.
Arguments Raise {A} e.

(** The characters of a [str], and the [str] of a list of characters. *)
Definition chars (s : string) : list ascii := String.list_ascii_of_string s.
Definition str (l : list ascii) : string := String.string_of_list_ascii l.

(** [s.endswith(suffix)] *)
Definition endswith (s suffix : string) : bool :=
  bool_decide (chars suffix `suffix_of` chars s).

(** A byte that is an ASCII character: [0xxxxxxx]. *)
Definition is_ascii (c : ascii) : bool := (N_of_ascii c <? 128)%N.

(** A byte that continues the UTF-8 sequence of a character: [10xxxxxx]. *)
Definition is_continuation (c : ascii) : bool :=
  let n := nat_of_ascii c in ((128 <=? n) && (n <=? 191))%nat.

Fixpoint drop_continuation (l : list ascii) : list ascii :=
  match l with
  | c :: l' => if is_continuation c then drop_continuation l' else l
  | [] => []
  end.

(** The bytes of a text without its last character, both back to front:
    the continuation bytes of the character go, and then its first byte. *)
Definition drop_last_char (reversed : list ascii) : list ascii :=
  tail (drop_continuation reversed).

(** [s[:-n]] for [n > 0]: all but the last [n] characters, and the empty
    string when there are no more than [n]. *)
Definition drop_last (n : nat) (s : string) : string :=
  str (rev (Nat.iter n drop_last_char (rev (chars s)))).

(** A text of one character: a first byte and its continuation bytes. *)
Definition one_char (ch : string) : bool :=
  match chars ch with
  | c :: l => negb (is_continuation c) && forallb is_continuation l
  | [] => false
  end.

(** U+FFFD, which stands for bytes that are not UTF-8. *)
Definition REPLACEMENT : N := 65533.

(** The code point of a sequence whose shortest would-be value is [low]. *)
Definition checked (low acc : N) : N :=
  if (low <=? acc)%N && (acc <=? 1114111)%N then acc else REPLACEMENT.

(** The code points of UTF-8 bytes, entered with the bits [acc] of a
    sequence that has [more] continuation bytes to come. *)
Fixpoint code_points_from (acc : N) (more : nat) (low : N) (l : list ascii) : list N :=
  match l with
  | [] => match more with O => [] | S _ => [REPLACEMENT] end
  | c :: l' =>
      let b := N_of_ascii c in
      let first :=
        (if b <? 128 then b :: code_points_from 0 0 0 l'
         else if b <? 192 then REPLACEMENT :: code_points_from 0 0 0 l'
         else if b <? 224 then code_points_from (b - 192) 1 128 l'
         else if b <? 240 then code_points_from (b - 224) 2 2048 l'
         else if b <? 248 then code_points_from (b - 240) 3 65536 l'
         else REPLACEMENT :: code_points_from 0 0 0 l')%N in
      match more with
      | O => first
      | S more' =>
          if is_continuation c then
            match more' with
            | O => checked low (acc * 64 + (b - 128))%N :: code_points_from 0 0 0 l'
            | S _ => code_points_from (acc * 64 + (b - 128))%N more' low l'
            end
          else REPLACEMENT :: first
      end
  end.

(** The code points of a [str]. *)
Definition code_points (s : string) : list N := code_points_from 0 0 0 (chars s).

(** [Py_UNICODE_ISSPACE] above ASCII: the characters of bidirectional
    type WS, B or S and of category Zs. *)
Definition unicode_space (c : N) : bool :=
  ((c =? 133) || (c =? 160) || (c =? 5760) || (8192 <=? c) && (c <=? 8202)
   || (c =? 8232) || (c =? 8233) || (c =? 8239) || (c =? 8287) || (c =? 12288))%N.

(** The digit zero of every script with decimal digits (category Nd of
    Unicode 14.0, the database of CPython 3.11); the nine code points
    after a zero are its digits one to nine. *)
Definition DECIMAL_ZEROS : list N :=
  [ 48; 1632; 1776; 1984; 2406; 2534; 2662; 2790; 2918; 3046; 3174;
    3302; 3430; 3558; 3664; 3792; 3872; 4160; 4240; 6112; 6160; 6470;
    6608; 6784; 6800; 6992; 7088; 7232; 7248; 42528; 43216; 43264;
    43472; 43504; 43600; 44016; 65296; 66720; 68912; 69734; 69872;
    69942; 70096; 70384; 70736; 70864; 71248; 71360; 71472; 71904;
    72016; 72784; 73040; 73120; 92768; 92864; 93008; 120782; 120792;
    120802; 120812; 120822; 123200; 123632; 125264; 130032 ]%N.

(** [Py_UNICODE_TODECIMAL] *)
Definition unicode_decimal (c : N) : option N :=
  (fun zero => c - zero)%N
  <$> List.find (fun zero => (zero <=? c) && (c <? zero + 10))%N DECIMAL_ZEROS.

(** What [int] and [float] make of one character of a text that is not
    ASCII before they parse: blanks become spaces, decimal digits of any
    script become ASCII digits, and any other character above ASCII
    becomes a question mark, which is part of no number. *)
Definition ascii_of_code_point (c : N) : ascii :=
  if (c <? 127)%N then ascii_of_N c
  else if unicode_space c then " "%char
  else match unicode_decimal c with
       | Some d => ascii_of_N (48 + d)
       | None => "?"%char
       end.

(** The text that [int(s)] and [float(s)] parse: [s] itself when it is
    ASCII, and else its characters made ASCII one by one. *)
Definition number_text (s : string) : list ascii :=
  let cs := code_points s in
  if forallb (fun c => c <? 128)%N cs then map ascii_of_N cs
  else map ascii_of_code_point cs.

(** The blanks that the number parsers skip ([Py_ISSPACE]): tab, line
    feed, vertical tab, form feed, carriage return and space. *)
Definition is_space (c : ascii) : bool :=
  let n := nat_of_ascii c in
  ((9 <=? n) && (n <=? 13) || (n =? 32))%nat.

Definition is_digit (c : ascii) : bool :=
  let n := nat_of_ascii c in ((48 <=? n) && (n <=? 57))%nat.

Definition digit_value (c : ascii) : Z := Z.of_nat (nat_of_ascii c - 48).

Definition lower (c : ascii) : ascii :=
  let n := nat_of_ascii c in
  if ((65 <=? n) && (n <=? 90))%nat then ascii_of_nat (n + 32) else c.

Fixpoint lstrip (l : list ascii) : list ascii :=
  match l with
  | c :: l' => if is_space c then lstrip l' else l
  | [] => []
  end.

(** A text without the blanks at its two ends. *)
Definition strip (l : list ascii) : list ascii :=
  rev (lstrip (rev (lstrip l))).

(** An optional sign: whether it was a minus, and the rest. *)
Definition take_sign (l : list ascii) : bool * list ascii :=
  match l with
  | c :: l' =>
      if Ascii.eqb c "+" then (false, l')
      else if Ascii.eqb c "-" then (true, l')
      else (false, l)
  | [] => (false, [])
  end.

(** The rest of a [digitpart ::= digit (["_"] digit)*] after some digits:
    the value read so far, the number of digits read, the input left. *)
Fixpoint digitpart_rest (l : list ascii) (acc : Z) (n : nat) : Z * nat * list ascii :=
  match l with
  | c :: l' =>
      if is_digit c then digitpart_rest l' (10 * acc + digit_value c) (S n)
      else if Ascii.eqb c "_" then
        match l' with
        | d :: l'' =>
            if is_digit d then digitpart_rest l'' (10 * acc + digit_value d) (S n)
            else (acc, n, l)
        | [] => (acc, n, l)
        end
      else (acc, n, l)
  | [] => (acc, n, [])
  end.

(** A [digitpart] whose digits continue the decimal numeral [acc]. *)
Definition digitpart (acc : Z) (l : list ascii) : option (Z * nat * list ascii) :=
  match l with
  | c :: l' =>
      if is_digit c then Some (digitpart_rest l' (10 * acc + digit_value c) 1) else None
  | [] => None
  end.

(** [sys.get_int_max_str_digits()]: the most digits that [int(s)]
    converts, as the interpreter starts (the script does not set it). *)
Definition INT_MAX_STR_DIGITS : Z := 4300.

(** [int(s)] for a [str] in base 10: surrounding whitespace, a sign, then
    digits with single underscores between them; anything else, and a
    number of more than [INT_MAX_STR_DIGITS] digits, raises [ValueError]. *)
Definition int_of_str (s : string) : result Z :=
  let (neg, l) := take_sign (strip (number_text s)) in
  match digitpart 0 l with
  | Some (v, n, []) =>
      if INT_MAX_STR_DIGITS <? Z.of_nat n then Raise ValueError
      else Ok (if neg then - v else v)
  | _ => Raise ValueError
  end.

(** The number that a string of decimal digits denotes. *)
Definition decimal_value (digits : list ascii) : Z :=
  fold_left (fun acc c => 10 * acc + digit_value c) digits 0.

(** *** binary64 *)

Definition prec : Z := 53.
Definition emax : Z := 1024.

(** The binary64 value nearest to [m * 10^k] for [m >= 0] (ties to even),
    with sign [neg]: the result of a correctly rounded conversion from
    decimal, as [float(str)] performs it. *)
Definition float_of_decimal (neg : bool) (m : Z) (k : Z) : spec_float :=
  match m with
  | Zpos _ =>
      match k with
      | Zneg _ =>
          let '(q, e, loc) := SFdiv_core_binary prec emax m 0 (10 ^ (- k)) 0 in
          binary_round_aux prec emax neg q e loc
      | _ => binary_round prec emax neg (Z.to_pos (m * 10 ^ k)) 0
      end
  | _ => S754_zero neg
  end.

(** [float(n)] for an [int] that binary64 holds exactly. *)
Definition float_of_int (n : Z) : spec_float := binary_normalize prec emax n 0 false.

(** [x * y] on floats *)
Definition float_mul (x y : spec_float) : spec_float := SFmul prec emax x y.

(** [int(x)] for a float: truncation toward zero; an infinity raises
    [OverflowError] and a NaN raises [ValueError]. *)
Definition int_of_float (x : spec_float) : result Z :=
  match x with
  | S754_zero _ => Ok 0
  | S754_infinity _ => Raise OverflowError
  | S754_nan => Raise ValueError
  | S754_finite s m e =>
      let a := match e with
               | Zneg _ => Z.pos m / 2 ^ (- e)
               | _ => Z.pos m * 2 ^ e
               end in
      Ok (if s then - a else a)
  end.

(** [a / b] on two [int]s with [b > 0], the true division: the binary64
    value nearest to the quotient (ties to even), and [OverflowError]
    when the quotient is too large for a float. *)
Definition int_truediv (a : Z) (b : positive) : result spec_float :=
  match a with
  | 0 => Ok (S754_zero false)
  | _ =>
      let '(q, e, loc) := SFdiv_core_binary prec emax (Z.abs a) 0 (Z.pos b) 0 in
      match binary_round_aux prec emax (a <? 0) q e loc with
      | S754_infinity _ => Raise OverflowError
      | x => Ok x
      end
  end.

(** The mantissa [[digitpart] "." digitpart | digitpart ["."]]: its digits
    read as one integer, the number of digits after the point, the rest. *)
Definition mantissa (l : list ascii) : option (Z * nat * list ascii) :=
  match digitpart 0 l with
  | Some (i, _, "."%char :: l') =>
      match digitpart i l' with
      | Some r => Some r
      | None => Some (i, 0%nat, l')
      end
  | Some (i, _, l') => Some (i, 0%nat, l')
  | None =>
      match l with
      | "."%char :: l' => digitpart 0 l'
      | _ => None
      end
  end.

(** The exponent [("e" | "E") [sign] digitpart], or 0 when there is none. *)
Definition exponent (l : list ascii) : option (Z * list ascii) :=
  match l with
  | c :: l' =>
      if Ascii.eqb (lower c) "e" then
        let (neg, l'') := take_sign l' in
        match digitpart 0 l'' with
        | Some (v, _, rest) => Some (if neg then - v else v, rest)
        | None => None
        end
      else Some (0, l)
  | [] => Some (0, [])
  end.

(** [float(s)] for a [str]: surrounding whitespace, a sign, then [inf],
    [infinity] or [nan] in any case, or a decimal number with an optional
    exponent; anything else raises [ValueError]. *)
Definition float_of_str (s : string) : result spec_float :=
  let (neg, l) := take_sign (strip (number_text s)) in
  let word := str (map lower l) in
  if String.eqb word "inf" || String.eqb word "infinity" then Ok (S754_infinity neg)
  else if String.eqb word "nan" then Ok S754_nan
  else
    match mantissa l with
    | Some (m, nfrac, rest) =>
        match exponent rest with
        | Some (e, []) => Ok (float_of_decimal neg m (e - Z.of_nat nfrac))
        | _ => Raise ValueError
        end
    | None => Raise ValueError
    end.

(** ** Size parser (get_local_indices, lines 109-134) *)

(** A JSON value of a [_cat/indices] row, as far as the script tells them
    apart: [null], a string, an integer, or an array or object. *)
Inductive pyval := PyNone | PyStr (s : string) | PyInt (z : Z) | PyObject.

(** One row of [_cat/indices?h=index,docs.count,store.size]; [None] is a
    key the row does not have. *)
Record cat_row := CatRow {
  row_index : string;
  row_docs_count : option pyval;
  row_store_size : option pyval
}.

(** Lines 116-124, the body of the [try]. *)
Definition parse_size (size : string) : result Z :=
  if endswith size "b" then
    match float_of_str (drop_last 2 size) with
    | Ok num =>
        let num :=
          if endswith size "kb" then float_mul num (float_of_int 1024)
          else if endswith size "mb" then float_mul num (float_of_int (1024 ^ 2))
          else if endswith size "gb" then float_mul num (float_of_int (1024 ^ 3))
          else if endswith size "tb" then float_mul num (float_of_int (1024 ^ 4))
          else num in
        int_of_float num
    | Raise e => Raise e
    end
  else int_of_str size.

(** The unit suffixes that lines 118-121 know, with the power of 1024
    each stands for. *)
Definition unit_suffixes : list (string * Z) :=
  [("kb", 1); ("mb", 2); ("gb", 3); ("tb", 4)].

(** [except (ValueError, TypeError)] *)
Definition is_value_or_type_error (e : exn) : bool :=
  match e with
  | ValueError | TypeError => true
  | _ => false
  end.

(** Lines 109-127: the value of [size_bytes] for the [store.size] field of
    a row. The default of [idx.get('store.size', '0b')] applies to a
    missing key only; an exception the [except] clause does not name
    leaves the function. *)
Definition size_bytes (store_size : option pyval) : result Z :=
  let size := default (PyStr "0b") store_size in
  match size with
  | PyStr s =>
      if String.eqb s "" then Ok 0
      else
        match parse_size s with
        | Ok n => Ok n
        | Raise e => if is_value_or_type_error e then Ok 0 else Raise e
        end
  | _ => Ok 0
  end.

(** [int(docs_count)] on a JSON value that is not [null]. *)
Definition int_of_pyval (v : pyval) : result Z :=
  match v with
  | PyStr s => int_of_str s
  | PyInt z => Ok z
  | PyNone | PyObject => Raise TypeError
  end.

(** Lines 110 and 130-134: the value of [docs]; the [try] catches what
    [int] can raise. *)
Definition docs_count (field : option pyval) : Z :=
  match default (PyStr "0") field with
  | PyNone => 0
  | v => match int_of_pyval v with
         | Ok n => n
         | Raise _ => 0
         end
  end.

(** ** Local time *)

(** What [datetime.fromtimestamp(t)] makes of a timestamp depends on the
    platform: the range of its [time_t], its C [localtime], the time
    zone. It gives a local date and time or raises one of the three
    exceptions that the library reference names. *)
Inductive local_time :=
  (** a [datetime]; its text is not kept *)
  | LocalTime
  (** [ValueError]: the year is outside 1..9999 *)
  | YearOutOfRange
  (** [OverflowError]: the timestamp is outside the platform's [time_t] *)
  | TimestampOutOfRange
  (** [OSError]: the C [localtime] fails *)
  | LocaltimeFailed.

Definition datetime_of (t : local_time) : result unit :=
  match t with
  | LocalTime => Ok tt
  | YearOutOfRange => Raise ValueError
  | TimestampOutOfRange => Raise OverflowError
  | LocaltimeFailed => Raise OSError
  end.

(** ** The two clusters and the effects of the script *)

Inductive cluster := ACTIVE_CLUSTER | PASSIVE_CLUSTER.

(** [cluster_config['url']] *)
Definition url (c : cluster) : string :=
  match c with
  | ACTIVE_CLUSTER => "http://localhost:9203"
  | PASSIVE_CLUSTER => "http://localhost:9201"
  end.

(** One entry of [_cat/snapshots]; the cat API gives every column as a string. *)
Record snapshot_row := SnapshotRow { snap_id : string; snap_end_epoch : string }.

(** The HTTP calls of the script, indexed by what the script reads from the
    JSON body of a successful answer (the cluster API is taken to answer
    in its documented shape). *)
Inductive request : Type -> Type :=
  (** [GET {url}/_snapshot/{repo}] *)
  | GetRepository (c : cluster) (repo : string) : request unit
  (** [GET {url}/_snapshot/{repo}/_status] *)
  | GetRepositoryStatus (c : cluster) (repo : string) : request unit
  (** [GET {url}/_cat/snapshots/{repo}?format=json] *)
  | CatSnapshots (c : cluster) (repo : string) : request (list snapshot_row)
  (** [GET {url}/_snapshot/{repo}/{snapshot}] *)
  | GetSnapshot (c : cluster) (repo snapshot : string) : request unit
  (** [GET {url}/_snapshot/{repo}/{snapshot}/_status]: for each index of
      [['snapshots'][0]['indices']], its [['stats']['total']['size_in_bytes']] *)
  | GetSnapshotStatus (c : cluster) (repo snapshot : string) : request (list (string * Z))
  (** [GET {url}/_cat/indices?format=json&h=index,docs.count,store.size] *)
  | CatIndices (c : cluster) : request (list cat_row)
  (** [POST {url}/{index}/_close] *)
  | PostClose (c : cluster) (index : string) : request unit
  (** [GET {url}/{index}/_count]: [['count']] *)
  | GetCount (c : cluster) (index : string) : request Z
  (** [POST {url}/_snapshot/{repo}/{snapshot}/_restore] with the body
      [{indices, include_global_state, include_aliases}], timeout 300 s *)
  | PostRestore (c : cluster) (repo snapshot : string) (indices : string)
      (include_global_state include_aliases : bool) : request unit
  (** [GET {url}/_cluster/health/{index}]: [['status']] *)
  | GetHealth (c : cluster) (index : string) : request string
  (** [GET {url}/_cluster/health/{index}?wait_for_status=green&timeout=30s],
      timeout 35 s: [['status']] *)
  | GetHealthWaitGreen (c : cluster) (index : string) : request string
  (** [POST {url}/{index}/_open] *)
  | PostOpen (c : cluster) (index : string) : request unit.

(** A response object: [r.ok] with the decoded body, or a status that
    makes [r.ok] false and [r.raise_for_status()] raise. *)
Inductive response (B : Type) := HttpOk (json : B) | HttpError (status_code : Z).
Arguments HttpOk {B} json.
Arguments HttpError {B} status_code.

Definition ok {B} (r : response B) : bool :=
  match r with
  | HttpOk _ => true
  | HttpError _ => false
  end.

Inductive level := DEBUG | INFO | WARNING | ERROR.

(** A value interpolated into a log line. *)
Inductive arg := AStr (s : string) | AInt (z : Z).

(** What a run does, in order: the requests it sends, its sleeps and its
    log lines (the f-string as written, with the values it interpolates;
    the text of an exception or of a response body is left out). *)
Inductive event :=
  | Http {B : Type} (r : request B)
  | Sleep (seconds : Z)
  | Log (lvl : level) (template : string) (args : list arg).

(** A cluster pair is a state with an answer to every request; [None] is
    [requests] raising a [RequestException] (no connection, timeout). *)
Definition api (World : Type) : Type :=
  forall B, request B -> World -> option (response B) * World.

(** A computation of the script: from the state of the clusters to a
    value or an uncaught exception, the new state, and the events. *)
Definition M (World : Type) (A : Type) : Type :=
  World -> result A * World * list event.

Global Instance M_ret {World} : MRet (M World) :=
  fun A a w => (Ok a, w, []).

Global Instance M_bind {World} : MBind (M World) :=
  fun A B k m w =>
    match m w with
    | (Ok a, w1, t1) => let '(r, w2, t2) := k a w1 in (r, w2, t1 ++ t2)
    | (Raise e, w1, t1) => (Raise e, w1, t1)
    end.

(** [raise e] *)
Definition raise {World A} (e : exn) : M World A := fun w => (Raise e, w, []).

(** A pure computation that may raise. *)
Definition lift {World A} (r : result A) : M World A := fun w => (r, w, []).

(** [try: body except <catches> as e: handler e] *)
Definition try_except {World A} (body : M World A) (catches : exn -> bool)
    (handler : exn -> M World A) : M World A :=
  fun w =>
    match body w with
    | (Ok a, w1, t1) => (Ok a, w1, t1)
    | (Raise e, w1, t1) =>
        if catches e then let '(r, w2, t2) := handler e w1 in (r, w2, t1 ++ t2)
        else (Raise e, w1, t1)
    end.

(** [except requests.exceptions.RequestException] *)
Definition is_request_exception (e : exn) : bool :=
  match e with
  | RequestException _ => true
  | _ => false
  end.

(** [except Exception] *)
Definition is_exception (e : exn) : bool := true.

Definition emit {World} (e : event) : M World unit := fun w => (Ok tt, w, [e]).

(** [logging.info], [logging.warning], [logging.error] *)
Definition log {World} (lvl : level) (template : string) (args : list arg) : M World unit :=
  emit (Log lvl template args).

(** [time.sleep(seconds)] *)
Definition sleep {World} (seconds : Z) : M World unit := emit (Sleep seconds).

(** [requests.get] and [requests.post] *)
Definition send {World} (cl : api World) {B} (r : request B) : M World (response B) :=
  fun w =>
    match cl B r w with
    | (Some resp, w') => (Ok resp, w', [Http r])
    | (None, w') => (Raise (RequestException false), w', [Http r])
    end.

(** [r.raise_for_status()] followed by [r.json()] *)
Definition raise_for_status {World B} (r : response B) : M World B :=
  match r with
  | HttpOk json => mret json
  | HttpError _ => raise (RequestException true)
  end.

(** ** The script's functions (elk-cursor.py, lines 45-369) *)

Section Script.
Context {World : Type} (cl : api World) (fromtimestamp : spec_float -> local_time).

Local Abbreviation M := (M World).

(** [verify_repository] (lines 45-62) *)
Definition verify_repository (cluster_config : cluster) (repo_name : string) : M bool :=
  try_except
    (r ← send cl (GetRepository cluster_config repo_name);
     raise_for_status r;;
     status_r ← send cl (GetRepositoryStatus cluster_config repo_name);
     raise_for_status status_r;;
     log INFO "Repository {repo_name} exists and is accessible on {cluster_config['url']}"
       [AStr repo_name; AStr (url cluster_config)];;
     mret true)
    is_request_exception
    (fun e =>
       log ERROR "Repository {repo_name} verification failed on {cluster_config['url']}: {str(e)}"
         [AStr repo_name; AStr (url cluster_config)];;
       match e with
       | RequestException true => log ERROR "Error details: {e.response.text}" []
       | _ => mret tt
       end;;
       mret false).

(** [max(snapshots, key=lambda s: s['end_epoch'])]: the first entry whose
    key no other exceeds; the keys are strings and compare as strings. *)
Fixpoint max_end_epoch (best : snapshot_row) (snapshots : list snapshot_row) : snapshot_row :=
  match snapshots with
  | [] => best
  | s :: snapshots' =>
      max_end_epoch
        (if String.ltb (snap_end_epoch best) (snap_end_epoch s) then s else best)
        snapshots'
  end.

(** [get_latest_snapshot] (lines 64-78). The f-string of the log line
    converts [end_epoch] with [int], divides by 1000 and calls
    [datetime.fromtimestamp]; each of the three can raise, and the
    [except] clause catches none of their exceptions. Of the values of
    the log line the model keeps the id and the integer. *)
Definition get_latest_snapshot : M (option string) :=
  try_except
    (r ← send cl (CatSnapshots ACTIVE_CLUSTER SNAPSHOT_REPO);
     snapshots ← raise_for_status r;
     match snapshots with
     | [] =>
         log ERROR "No snapshots found in repository {SNAPSHOT_REPO}" [AStr SNAPSHOT_REPO];;
         mret None
     | s :: snapshots' =>
         let latest := max_end_epoch s snapshots' in
         end_epoch ← lift (int_of_str (snap_end_epoch latest));
         seconds ← lift (int_truediv end_epoch 1000);
         lift (datetime_of (fromtimestamp seconds));;
         log INFO "Found latest snapshot: {latest['id']} from {datetime.fromtimestamp(int(latest['end_epoch'])/1000)}"
           [AStr (snap_id latest); AInt end_epoch];;
         mret (Some (snap_id latest))
     end)
    is_request_exception
    (fun e =>
       log ERROR "Failed to get latest snapshot from {ACTIVE_CLUSTER['url']}: {str(e)}"
         [AStr (url ACTIVE_CLUSTER)];;
       mret None).

(** [get_snapshot_indices] (lines 91-100) *)
Definition get_snapshot_indices (snapshot : string) : M (list (string * Z)) :=
  try_except
    (r ← send cl (GetSnapshotStatus ACTIVE_CLUSTER SNAPSHOT_REPO snapshot);
     indices ← raise_for_status r;
     mret indices)
    is_request_exception
    (fun e =>
       log ERROR "Failed to get snapshot indices from {ACTIVE_CLUSTER['url']}: {str(e)}"
         [AStr (url ACTIVE_CLUSTER)];;
       mret []).

(** Lines 109-127 with the warning of the [except] clause. *)
Definition size_bytes_of_row (idx : cat_row) : M Z :=
  match default (PyStr "0b") (row_store_size idx) with
  | PyStr size =>
      if String.eqb size "" then mret 0
      else
        try_except (lift (parse_size size)) is_value_or_type_error
          (fun e =>
             log WARNING "Could not parse size '{size}' for index {idx['index']}: {str(e)}"
               [AStr size; AStr (row_index idx)];;
             mret 0)
  | _ => mret 0
  end.

(** Lines 110 and 129-134 with the warning of the [except] clause. *)
Definition docs_of_row (idx : cat_row) : M Z :=
  match default (PyStr "0") (row_docs_count idx) with
  | PyNone => mret 0
  | docs_count =>
      try_except (lift (int_of_pyval docs_count)) is_value_or_type_error
        (fun e =>
           log WARNING "Could not parse docs count '{docs_count}' for index {idx['index']}: {str(e)}"
             [AStr (row_index idx)];;
           mret 0)
  end.

(** The loop of lines 108-140 over the rows of the answer; the
    [logging.debug] of line 140 is below the configured level. *)
Fixpoint local_indices_of_rows (rows : list cat_row)
    (indices : gmap string local_index) : M (gmap string local_index) :=
  match rows with
  | [] => mret indices
  | idx :: rows' =>
      size ← size_bytes_of_row idx;
      docs ← docs_of_row idx;
      local_indices_of_rows rows'
        (<[row_index idx := LocalIndex docs size]> indices)
  end.

(** [get_local_indices] (lines 102-145). Both [return]s give a dict; the
    result is an [option] so that the caller's [is None] can be asked. *)
Definition get_local_indices : M (option (gmap string local_index)) :=
  try_except
    (r ← send cl (CatIndices PASSIVE_CLUSTER);
     rows ← raise_for_status r;
     indices ← local_indices_of_rows rows ∅;
     mret (Some indices))
    is_request_exception
    (fun e =>
       log ERROR "Failed to get local indices from {PASSIVE_CLUSTER['url']}: {str(e)}"
         [AStr (url PASSIVE_CLUSTER)];;
       mret (Some ∅)).

(** The log lines of the first loop of [pick_indices_to_restore]
    (lines 153 and 159). *)
Fixpoint to_restore_log (items : list (string * Z))
    (local_indices : gmap string local_index) : list event :=
  match items with
  | [] => []
  | (idx, snap_size) :: items' =>
      (if is_system_index idx then [Log INFO "Skipping system index: {idx}" [AStr idx]]
       else if needs_restore local_indices idx snap_size then
         [Log INFO "Index {idx} needs restore: snapshot size {snap_size}, local size {local['size'] if local else 0}"
            [AStr idx; AInt snap_size;
             AInt (default 0 (local_size <$> local_indices !! idx))]]
       else [])
      ++ to_restore_log items' local_indices
  end.

(** The log line of the second loop (line 166), written at the [break]. *)
Fixpoint fill_batch_log (sorted : list (string * Z)) (total : Z) : list event :=
  match sorted with
  | [] => []
  | (idx, size) :: sorted' =>
      if total + size >? MAX_RESTORE_BYTES then
        [Log INFO "Batch size limit reached ({total} bytes). Remaining indices will be processed in next run."
           [AInt total]]
      else fill_batch_log sorted' (total + size)
  end.

(** [pick_indices_to_restore] as the run executes it: the batch of
    [pick_indices_to_restore], and its log lines. *)
Definition select_batch (snapshot_indices : list (string * Z))
    (local_indices : gmap string local_index) : M (list string) :=
  fun w =>
    (Ok (pick_indices_to_restore snapshot_indices local_indices), w,
     to_restore_log snapshot_indices local_indices
     ++ fill_batch_log
          (sort_largest_first (to_restore snapshot_indices local_indices)) 0).

(** [close_index] (lines 172-181) *)
Definition close_index (index : string) : M bool :=
  try_except
    (r ← send cl (PostClose PASSIVE_CLUSTER index);
     raise_for_status r;;
     log INFO "Closed index {index}" [AStr index];;
     mret true)
    is_request_exception
    (fun e =>
       log ERROR "Failed to close index {index}: {str(e)}" [AStr index];;
       mret false).

(** [get_index_doc_count] (lines 183-191); [None] is the failure value. *)
Definition get_index_doc_count (index : string) (cluster_config : cluster) : M (option Z) :=
  try_except
    (r ← send cl (GetCount cluster_config index);
     count ← raise_for_status r;
     mret (Some count))
    is_request_exception
    (fun e =>
       log ERROR "Failed to get document count for {index} from {cluster_config['url']}: {str(e)}"
         [AStr index; AStr (url cluster_config)];;
       mret None).

(** [verify_restore_success] (lines 193-208) *)
Definition verify_restore_success (index : string) (expected_docs : Z) : M bool :=
  try_except
    (actual_docs ← get_index_doc_count index PASSIVE_CLUSTER;
     match actual_docs with
     | None => mret false
     | Some actual_docs =>
         if actual_docs =? expected_docs then
           log INFO "Document count verified for {index}: {actual_docs} documents"
             [AStr index; AInt actual_docs];;
           mret true
         else
           log WARNING "Document count mismatch for {index}: expected {expected_docs}, got {actual_docs}"
             [AStr index; AInt expected_docs; AInt actual_docs];;
           mret false
     end)
    is_exception
    (fun e =>
       log ERROR "Error verifying restore for {index}: {str(e)}" [AStr index];;
       mret false).

(** [max_attempts] of [restore_index] (line 242), and the default of
    [wait_for_green] (line 293), with which [main] calls it *)
Definition max_attempts : nat := 30.

(** The f-string of lines 251-256; of the values it interpolates, the
    model keeps the index, the attempt, the bound and the status. *)
Definition health_check_template : string :=
  "Index {index} health check {attempt + 1}/{max_attempts}: status={status}, number_of_shards={health_data.get('number_of_shards')}, active_shards={health_data.get('active_shards')}, relocating_shards={health_data.get('relocating_shards')}, initializing_shards={health_data.get('initializing_shards')}, unassigned_shards={health_data.get('unassigned_shards')}".

(** One iteration of the [while] of [restore_index] (lines 245-273),
    entered with the counter at [attempt]: [true] is the [return True]
    of line 262; on [false] the iteration has added one to [attempt]
    and slept, on line 268 or in the [except] clause on line 272. *)
Definition poll_health (index : string) (expected_docs : Z) (attempt : nat) : M bool :=
  try_except
    (health_response ← send cl (GetHealth PASSIVE_CLUSTER index);
     restored ←
       match health_response with
       | HttpOk status =>
           log INFO health_check_template
             [AStr index; AInt (Z.of_nat attempt + 1); AInt (Z.of_nat max_attempts); AStr status];;
           if String.eqb status "green" then
             verified ← verify_restore_success index expected_docs;
             if verified : bool then
               log INFO "Index {index} restored successfully with correct document count"
                 [AStr index];;
               mret true
             else
               log WARNING "Index {index} is green but document count doesn't match. Retrying..."
                 [AStr index];;
               mret false
           else mret false
       | HttpError _ =>
           log WARNING "Health check failed for {index}: {health_response.text}" [AStr index];;
           mret false
       end;
     if restored : bool then mret true
     else sleep 10;; mret false)
    is_request_exception
    (fun e =>
       log WARNING "Error checking restore status for {index}: {str(e)}" [AStr index];;
       sleep 10;;
       mret false).

(** The [while attempt < max_attempts] of [restore_index] and the two
    lines after it (lines 244-276). [remaining] is [max_attempts -
    attempt], which every iteration that does not return lowers by one. *)
Fixpoint poll_until_restored (index : string) (expected_docs : Z)
    (remaining : nat) (attempt : nat) : M bool :=
  match remaining with
  | O =>
      log ERROR "Restore operation timed out for index {index} after {max_attempts} attempts"
        [AStr index; AInt (Z.of_nat max_attempts)];;
      mret false
  | S remaining' =>
      restored ← poll_health index expected_docs attempt;
      if restored : bool then mret true
      else poll_until_restored index expected_docs remaining' (S attempt)
  end.

(** [restore_index] (lines 210-280) *)
Definition restore_index (snapshot index : string) (expected_docs : Z) : M bool :=
  try_except
    (verify_response ← send cl (GetSnapshot PASSIVE_CLUSTER SNAPSHOT_REPO snapshot);
     if negb (ok verify_response) then
       log ERROR "Snapshot verification failed: {verify_response.text}" [];;
       mret false
     else
       log INFO "Attempting to restore index {index} from {restore_url}" [AStr index];;
       r ← send cl (PostRestore PASSIVE_CLUSTER SNAPSHOT_REPO snapshot index false true);
       if negb (ok r) then
         log ERROR "Restore failed with status {r.status_code}: {r.text}" [];;
         mret false
       else
         log INFO "Restore request accepted for index {index}" [AStr index];;
         poll_until_restored index expected_docs max_attempts 0)
    is_request_exception
    (fun e =>
       log ERROR "Failed to restore index {index}: {str(e)}" [AStr index];;
       mret false).

(** [open_index] (lines 282-291) *)
Definition open_index (index : string) : M bool :=
  try_except
    (r ← send cl (PostOpen PASSIVE_CLUSTER index);
     raise_for_status r;;
     log INFO "Opened index {index}" [AStr index];;
     mret true)
    is_request_exception
    (fun e =>
       log ERROR "Failed to open index {index}: {str(e)}" [AStr index];;
       mret false).

(** The [while attempt < max_attempts] of [wait_for_green] and the two
    lines after it (lines 296-314), with [remaining] as in
    [poll_until_restored]. *)
Fixpoint wait_until_green (index : string) (max_attempts remaining : nat) : M bool :=
  match remaining with
  | O =>
      log ERROR "Index {index} did not become green after {max_attempts} attempts"
        [AStr index; AInt (Z.of_nat max_attempts)];;
      mret false
  | S remaining' =>
      green ←
        try_except
          (r ← send cl (GetHealthWaitGreen PASSIVE_CLUSTER index);
           status ← raise_for_status r;
           if String.eqb status "green" then
             log INFO "Index {index} is green" [AStr index];;
             mret true
           else sleep 10;; mret false)
          is_request_exception
          (fun e =>
             log ERROR "Error checking cluster health for {index}: {str(e)}" [AStr index];;
             sleep 10;;
             mret false);
      if green : bool then mret true
      else wait_until_green index max_attempts remaining'
  end.

(** [wait_for_green] (lines 293-314) *)
Definition wait_for_green (index : string) (max_attempts : nat) : M bool :=
  wait_until_green index max_attempts max_attempts.

(** The body of the [for idx in batch] of [main] (lines 350-367); each
    [continue] ends the body. *)
Definition process_index (snapshot : string)
    (local_indices : gmap string local_index) (idx : string) : M unit :=
  log INFO "Processing index: {idx}" [AStr idx];;
  expected_docs ← get_index_doc_count idx ACTIVE_CLUSTER;
  match expected_docs with
  | None =>
      log ERROR "Could not get document count for {idx} from active cluster, skipping"
        [AStr idx]
  | Some expected_docs =>
      closed ←
        (if bool_decide (is_Some (local_indices !! idx)) then close_index idx
         else mret true);
      if negb closed then mret tt
      else
        restored ← restore_index snapshot idx expected_docs;
        if restored : bool then
          opened ← open_index idx;
          if opened : bool then
            green ← wait_for_green idx max_attempts;
            if negb green then
              log ERROR "Index {idx} failed to become green" [AStr idx]
            else mret tt
          else mret tt
        else log ERROR "Restore failed for {idx}" [AStr idx]
  end.

(** [for idx in batch: ...] (line 349) *)
Fixpoint restore_batch (snapshot : string)
    (local_indices : gmap string local_index) (batch : list string) : M unit :=
  match batch with
  | [] => mret tt
  | idx :: batch' =>
      process_index snapshot local_indices idx;;
      restore_batch snapshot local_indices batch'
  end.

(** [main] (lines 316-369). [not snapshot] holds for [None] and for the
    empty string; [not snap_indices] and [not batch] for the empty dict
    and list. *)
Definition main : M unit :=
  log INFO "Starting snapshot restore process" [];;
  repository ← verify_repository PASSIVE_CLUSTER SNAPSHOT_REPO;
  if negb repository then
    log ERROR "Repository not found on passive cluster ({PASSIVE_CLUSTER['url']}). Exiting."
      [AStr (url PASSIVE_CLUSTER)]
  else
    snapshot ← get_latest_snapshot;
    match snapshot with
    | None | Some "" => log ERROR "Failed to get latest snapshot. Exiting." []
    | Some snapshot =>
        snap_indices ← get_snapshot_indices snapshot;
        match snap_indices with
        | [] => log ERROR "Failed to get snapshot indices. Exiting." []
        | _ :: _ =>
            local_indices ← get_local_indices;
            match local_indices with
            | None => log ERROR "Failed to get local indices. Exiting." []
            | Some local_indices =>
                batch ← select_batch snap_indices local_indices;
                match batch with
                | [] => log INFO "No indices need to be restored" []
                | _ :: _ =>
                    restore_batch snapshot local_indices batch;;
                    log INFO "Snapshot restore process completed" []
                end
            end
        end
    end.
End Script.

(** ** Reading a trace *)

(** The number of polls of [GET /_cluster/health/{index}] in a trace. *)
Fixpoint health_polls (t : list event) : nat :=
  match t with
  | [] => O
  | Http (GetHealth _ _) :: t' => S (health_polls t')
  | _ :: t' => health_polls t'
  end.

(** The number of [time.sleep] calls in a trace. *)
Fixpoint sleeps (t : list event) : nat :=
  match t with
  | [] => O
  | Sleep _ :: t' => S (sleeps t')
  | _ :: t' => sleeps t'
  end.

(** The indices for which a trace holds a restore request. *)
Fixpoint restore_requests (t : list event) : list string :=
  match t with
  | [] => []
  | Http (PostRestore _ _ _ index _ _) :: t' => index :: restore_requests t'
  | _ :: t' => restore_requests t'
  end.

(** The requests of a trace that change a cluster: close, restore, open. *)
Fixpoint restore_actions (t : list event) : list event :=
  match t with
  | [] => []
  | Http (PostClose c i) :: t' => Http (PostClose c i) :: restore_actions t'
  | Http (PostRestore c r s i g a) :: t' => Http (PostRestore c r s i g a) :: restore_actions t'
  | Http (PostOpen c i) :: t' => Http (PostOpen c i) :: restore_actions t'
  | _ :: t' => restore_actions t'
  end.

(** The indices the loop of [main] has started on, from its log line. *)
Fixpoint processed (t : list event) : list string :=
  match t with
  | [] => []
  | Log INFO "Processing index: {idx}" [AStr idx] :: t' => idx :: processed t'
  | _ :: t' => processed t'
  end.

(** The health checks a trace logs: the attempt number and the status. *)
Fixpoint health_checks (t : list event) : list (Z * string) :=
  match t with
  | [] => []
  | Log INFO template [AStr _; AInt n; AInt _; AStr status] :: t' =>
      if String.eqb template health_check_template
      then (n, status) :: health_checks t'
      else health_checks t'
  | _ :: t' => health_checks t'
  end.

(** ** Effects of a computation *)

(** A computation that raises nothing outside [allowed]. *)
Definition raises_only {World A} (allowed : exn -> bool) (m : M World A) : Prop :=
  forall w, match (m w).1.1 with
            | Ok _ => True
            | Raise e => allowed e = true
            end.

(** A computation that raises nothing: it returns a value from every
    state of the clusters. *)
Definition total {World A} (m : M World A) : Prop :=
  raises_only (fun _ => false) m.

(** A computation whose log has no line of the loop of [main]. *)
Definition silent {World A} (m : M World A) : Prop :=
  forall w, processed (m w).2 = [].

(** ** Simulated clusters

    A cluster pair that answers from a script, for the scenarios of the
    specification: fixed answers to the requests of the run coordinator,
    and a sequence of health polls for the restore driver. *)

(** What one poll of the index health finds: the request raises, the
    answer is not OK, or a status, together with what a [_count] request
    on the passive cluster answers from then on. *)
Inductive poll :=
  | PollRaises
  | PollHttpError (status_code : Z)
  | PollStatus (status : string) (count : option (response Z)).

Record sim := Sim {
  sim_repository : option (response unit);
  sim_snapshots : option (response (list snapshot_row));
  sim_snapshot_indices : option (response (list (string * Z)));
  sim_cat_indices : option (response (list cat_row));
  sim_close : option (response unit);
  sim_active_count : option (response Z);
  sim_passive_count : option (response Z);
  sim_polls : list poll
}.

Definition poll_answer (p : poll) : option (response string) :=
  match p with
  | PollRaises => None
  | PollHttpError status_code => Some (HttpError status_code)
  | PollStatus status _ => Some (HttpOk status)
  end.

Definition poll_count (p : poll) (before : option (response Z)) : option (response Z) :=
  match p with
  | PollStatus _ count => count
  | _ => before
  end.

(** A health poll consumes the next entry of the script and raises when
    the script is over; the snapshot check, the restore request, the open
    request and the green wait succeed. *)
Definition sim_api : api sim := fun B r w =>
  match r in request B return option (response B) * sim with
  | GetRepository _ _ => (sim_repository w, w)
  | GetRepositoryStatus _ _ => (sim_repository w, w)
  | CatSnapshots _ _ => (sim_snapshots w, w)
  | GetSnapshot _ _ _ => (Some (HttpOk tt), w)
  | GetSnapshotStatus _ _ _ => (sim_snapshot_indices w, w)
  | CatIndices _ => (sim_cat_indices w, w)
  | PostClose _ _ => (sim_close w, w)
  | GetCount ACTIVE_CLUSTER _ => (sim_active_count w, w)
  | GetCount PASSIVE_CLUSTER _ => (sim_passive_count w, w)
  | PostRestore _ _ _ _ _ _ => (Some (HttpOk tt), w)
  | GetHealth _ _ =>
      match sim_polls w with
      | [] => (None, w)
      | p :: polls =>
          (poll_answer p,
           Sim (sim_repository w) (sim_snapshots w) (sim_snapshot_indices w)
             (sim_cat_indices w) (sim_close w) (sim_active_count w)
             (poll_count p (sim_passive_count w)) polls)
      end
  | GetHealthWaitGreen _ _ => (Some (HttpOk "green"), w)
  | PostOpen _ _ => (Some (HttpOk tt), w)
  end.

(** The platform of the simulated runs: it shows the timestamps of the
    years 1970 to 9999 and takes any other for a year out of range. *)
Definition sim_fromtimestamp (t : spec_float) : local_time :=
  match int_of_float t with
  | Ok seconds =>
      if (0 <=? seconds) && (seconds <? 253402300800) then LocalTime
      else YearOutOfRange
  | Raise _ => TimestampOutOfRange
  end.

(** A poll that ends the wait of [restore_index]: green, and a count
    that equals the expected one. *)
Definition poll_succeeds (expected_docs : Z) (p : poll) : bool :=
  match p with
  | PollStatus status (Some (HttpOk count)) =>
      String.eqb status "green" && (count =? expected_docs)
  | _ => false
  end.

(** A cluster pair on which the request for the local indices fails (no
    connection): the repository is reachable, the latest snapshot holds
    one index that is not a system index, and its restore would succeed. *)
Definition sim_local_fetch_fails : sim :=
  Sim (Some (HttpOk tt))
    (Some (HttpOk [SnapshotRow "snap-1" "1700000000"]))
    (Some (HttpOk [("logs-1", 10)]))
    None
    (Some (HttpOk tt)) (Some (HttpOk 100)) None
    [PollStatus "green" (Some (HttpOk 100))].

(** The health checks that the wait loop logs on a sequence of polls,
    from the counter value [attempt] on: one for each poll that is
    answered with a status, numbered by the attempt. *)
Fixpoint logged_checks (attempt : nat) (polls : list poll) : list (Z * string) :=
  match polls with
  | [] => []
  | PollStatus status _ :: polls' =>
      (Z.of_nat attempt + 1, status) :: logged_checks (S attempt) polls'
  | _ :: polls' => logged_checks (S attempt) polls'
  end.

(** A cluster pair whose passive side answers the health polls of one
    restore from [polls]. *)
Definition sim_polling (polls : list poll) : sim :=
  Sim (Some (HttpOk tt)) (Some (HttpOk [])) (Some (HttpOk [])) (Some (HttpOk []))
    (Some (HttpOk tt)) (Some (HttpOk 0)) None polls.

(** ** The remaining function of the script, and further readings *)

Section Unused.
Context {World : Type} (cl : api World).

(** [verify_snapshot_exists] (lines 80-89); [main] does not call it. *)
Definition verify_snapshot_exists (snapshot : string) : M World bool :=
  try_except
    (r ← send cl (GetSnapshot PASSIVE_CLUSTER SNAPSHOT_REPO snapshot);
     raise_for_status r;;
     log INFO "Snapshot {snapshot} exists in repository {SNAPSHOT_REPO}"
       [AStr snapshot; AStr SNAPSHOT_REPO];;
     mret true)
    is_request_exception
    (fun e =>
       log ERROR "Snapshot {snapshot} not found in repository {SNAPSHOT_REPO}: {str(e)}"
         [AStr snapshot; AStr SNAPSHOT_REPO];;
       mret false).
End Unused.

(** A computation all of whose events satisfy [P], from every state of
    the clusters. *)
Definition events_all {World A} (P : event -> Prop) (m : M World A) : Prop :=
  forall w, Forall P (m w).2.

(** The requests of a trace, in order. *)
Fixpoint requests (t : list event) : list event :=
  match t with
  | [] => []
  | Http r :: t' => Http r :: requests t'
  | _ :: t' => requests t'
  end.

(** The number of green waits ([wait_for_status=green]) in a trace. *)
Fixpoint green_waits (t : list event) : nat :=
  match t with
  | [] => O
  | Http (GetHealthWaitGreen _ _) :: t' => S (green_waits t')
  | _ :: t' => green_waits t'
  end.

(** An event that is not a restore request. *)
Definition not_restore_request (e : event) : Prop :=
  match e with
  | Http (PostRestore _ _ _ _ _ _) => False
  | _ => True
  end.

(** An event that changes no cluster: no close, restore or open request. *)
Definition read_only (e : event) : Prop :=
  match e with
  | Http (PostClose _ _) | Http (PostRestore _ _ _ _ _ _) | Http (PostOpen _ _) => False
  | _ => True
  end.

(** An event of the restore of [index] from [snapshot]: a request to the
    passive cluster about this snapshot or this index that is no close
    and no open request, a restore request for this index alone, without
    the global state and with the aliases, a ten-second sleep, or a log
    line. *)
Definition restore_event (snapshot index : string) (e : event) : Prop :=
  match e with
  | Http (GetSnapshot c repo s) =>
      c = PASSIVE_CLUSTER /\ repo = SNAPSHOT_REPO /\ s = snapshot
  | Http (PostRestore c repo s indices global_state aliases) =>
      c = PASSIVE_CLUSTER /\ repo = SNAPSHOT_REPO /\ s = snapshot
      /\ indices = index /\ global_state = false /\ aliases = true
  | Http (GetHealth c i) => c = PASSIVE_CLUSTER /\ i = index
  | Http (GetCount c i) => c = PASSIVE_CLUSTER /\ i = index
  | Http _ => False
  | Sleep seconds => seconds = 10
  | Log _ _ _ => True
  end.

(** The cluster-changing requests that the loop of [main] sends for one
    index when every step succeeds: a close when the index exists
    locally, the restore, the open. *)
Definition index_actions (snapshot : string) (local_indices : gmap string local_index)
    (idx : string) : list event :=
  (if bool_decide (is_Some (local_indices !! idx))
   then [Http (PostClose PASSIVE_CLUSTER idx)] else [])
  ++ [Http (PostRestore PASSIVE_CLUSTER SNAPSHOT_REPO snapshot idx false true);
      Http (PostOpen PASSIVE_CLUSTER idx)].

(** The exceptions that can leave [get_local_indices]. *)
Definition is_value_or_overflow_error (e : exn) : bool :=
  match e with
  | ValueError | OverflowError => true
  | _ => false
  end.

(** The exceptions that can leave [get_latest_snapshot] and [main]. *)
Definition is_value_overflow_or_os_error (e : exn) : bool :=
  match e with
  | ValueError | OverflowError | OSError => true
  | _ => false
  end.

(** The entry that [get_local_indices] stores for a row whose size parses. *)
Definition local_index_of_row (row : cat_row) : option local_index :=
  match size_bytes (row_store_size row) with
  | Ok size => Some (LocalIndex (docs_count (row_docs_count row)) size)
  | Raise _ => None
  end.

(** The row of a [_cat/indices] answer that decides the entry of [name]:
    the last one with this index name. *)
Definition row_for (name : string) (rows : list cat_row) : option cat_row :=
  last (filter (fun row => row_index row = name) rows).

(** An event that is no restore request, or one for an index that
    [allowed] holds of. *)
Definition restores_only (allowed : string -> Prop) (e : event) : Prop :=
  match e with
  | Http (PostRestore _ _ _ index _ _) => allowed index
  | _ => True
  end.

(** ** The index growth dashboard (elk_util/streamlit_app.py, line 46) *)

(** [top_10 = sorted(index_stats, key=lambda x: x['size'], reverse=True)[:10]]
    on the list of [(index, size)] entries: a sort with [reverse=True]
    is stable too, so it is the stable ascending sort on the negated
    size. *)
Definition top_10 (index_stats : list (string * Z)) : list (string * Z) :=
  take 10 (sort_by_key (fun x => - x.2) index_stats).

(** * Properties *)

(** ** The stable sort *)

Section Sort.
Context {A : Type} (key : A -> Z).

Lemma insert_by_key_perm x l : insert_by_key key x l ≡ₚ x :: l.
Proof.
  induction l as [|y l IH]; simpl; [done|].
  destruct (key x <=? key y); [done|].
  rewrite IH. apply Permutation_swap.
Qed.

Lemma sort_by_key_perm l : sort_by_key key l ≡ₚ l.
Proof.
  induction l as [|x l IH]; simpl; [done|].
  by rewrite insert_by_key_perm, IH.
Qed.

Lemma insert_by_key_sorted x l :
  StronglySorted (fun a b => key a <= key b) l ->
  StronglySorted (fun a b => key a <= key b) (insert_by_key key x l).
Proof.
  induction 1 as [|y l Hl IH Hy]; simpl.
  - repeat constructor.
  - destruct (Z.leb_spec (key x) (key y)) as [Hxy|Hxy].
    + constructor; [by constructor|].
      constructor; [done|].
      eapply Forall_impl; [exact Hy|]. simpl. intros; lia.
    + constructor; [done|].
      rewrite insert_by_key_perm. constructor; [lia|done].
Qed.

Lemma sort_by_key_sorted l :
  StronglySorted (fun a b => key a <= key b) (sort_by_key key l).
Proof.
  induction l as [|x l IH]; simpl; [constructor|].
  by apply insert_by_key_sorted.
Qed.

(** Stability: the elements of one key keep their order. *)
Lemma insert_by_key_stable k x l :
  StronglySorted (fun a b => key a <= key b) l ->
  List.filter (fun a => key a =? k) (insert_by_key key x l)
  = List.filter (fun a => key a =? k) (x :: l).
Proof.
  induction 1 as [|y l Hl IH Hy]; [done|].
  cbn [insert_by_key].
  destruct (Z.leb_spec (key x) (key y)) as [Hxy|Hxy]; [done|].
  cbn [List.filter] in *. rewrite IH.
  destruct (Z.eqb_spec (key x) k), (Z.eqb_spec (key y) k); try done.
  lia.
Qed.

Lemma sort_by_key_stable k l :
  List.filter (fun a => key a =? k) (sort_by_key key l)
  = List.filter (fun a => key a =? k) l.
Proof.
  induction l as [|x l IH]; [done|].
  cbn [sort_by_key].
  rewrite insert_by_key_stable by apply sort_by_key_sorted.
  cbn [List.filter]. by rewrite IH.
Qed.
End Sort.

Lemma StronglySorted_weaken {A} (R R' : A -> A -> Prop) l :
  (forall a b, R a b -> R' a b) -> StronglySorted R l -> StronglySorted R' l.
Proof.
  intros HR. induction 1 as [|x l Hl IH Hx]; constructor; [done|].
  eapply Forall_impl; [exact Hx|]. auto.
Qed.

Lemma sort_largest_first_perm l : sort_largest_first l ≡ₚ l.
Proof. apply sort_by_key_perm. Qed.

Lemma sort_largest_first_descending l :
  StronglySorted (fun a b => a.2 >= b.2) (sort_largest_first l).
Proof.
  eapply StronglySorted_weaken; [|apply sort_by_key_sorted].
  simpl. intros; lia.
Qed.

(** ** The selection engine *)

Lemma Zsum_app l1 l2 : Zsum (l1 ++ l2) = Zsum l1 + Zsum l2.
Proof. induction l1 as [|x l1 IH]; simpl; lia. Qed.

Lemma Zsum_cons x l : Zsum (x :: l) = x + Zsum l.
Proof. done. Qed.

(** What the second loop does from any state of its accumulators: it takes
    a prefix of the sorted list, every taken entry fitted under the
    ceiling when it was taken, and the first entry not taken did not. *)
Lemma fill_batch_spec sorted batch total :
  exists picked rest,
    sorted = picked ++ rest
    /\ fill_batch sorted batch total = batch ++ picked.*1
    /\ (forall taken idx size later,
          picked = taken ++ (idx, size) :: later ->
          total + Zsum taken.*2 + size <= MAX_RESTORE_BYTES)
    /\ match rest with
       | [] => True
       | (_, size) :: _ => total + Zsum picked.*2 + size > MAX_RESTORE_BYTES
       end.
Proof.
  revert batch total.
  induction sorted as [|[idx size] sorted IH]; intros batch total.
  - exists [], []. simpl. rewrite app_nil_r. split_and!; try done.
    intros [|? ?] ? ? ? ?; discriminate.
  - cbn [fill_batch].
    destruct (Z.gtb_spec (total + size) MAX_RESTORE_BYTES) as [Hgt|Hle].
    + exists [], ((idx, size) :: sorted). simpl. rewrite app_nil_r.
      split_and!; try done; [|lia].
      intros [|? ?] ? ? ? ?; discriminate.
    + destruct (IH (batch ++ [idx]) (total + size))
        as (picked & rest & -> & Hfill & Hfit & Hrest).
      exists ((idx, size) :: picked), rest.
      split_and!; [done| |..].
      * rewrite Hfill, <- app_assoc. done.
      * intros [|[i s] taken] idx' size' later Heq; simplify_eq/=; [lia|].
        specialize (Hfit taken idx' size' later eq_refl). lia.
      * destruct rest as [|[? ?] ?]; [done|].
        rewrite fmap_cons, Zsum_cons. simpl. lia.
Qed.

(** The entries of [to_restore] are the candidates of the snapshot dict. *)
Lemma elem_of_to_restore items local_indices idx snap_size :
  (idx, snap_size) ∈ to_restore items local_indices <->
  (idx, snap_size) ∈ items
  /\ is_system_index idx = false
  /\ needs_restore local_indices idx snap_size = true.
Proof.
  induction items as [|[i s] items IH]; simpl.
  - rewrite elem_of_nil. tauto.
  - destruct (is_system_index i) eqn:Hsys;
      [|destruct (needs_restore local_indices i s) eqn:Hneed];
      rewrite ?elem_of_cons, IH; (split; [intros Hin|intros (Hin & Hs & Hn)]).
    + tauto.
    + destruct Hin as [Heq|Hin]; [congruence|tauto].
    + destruct Hin as [Heq|Hin]; [|tauto]. injection Heq as -> ->. tauto.
    + tauto.
    + tauto.
    + destruct Hin as [Heq|Hin]; [congruence|tauto].
Qed.

Lemma dict_get_NoDup {V} (d : list (string * V)) k v :
  NoDup d.*1 -> (k, v) ∈ d -> dict_get d k = Some v.
Proof.
  induction d as [|[k' v'] d IH]; simpl; intros Hnd Hin.
  - by apply elem_of_nil in Hin.
  - apply NoDup_cons in Hnd as [Hk' Hnd].
    apply elem_of_cons in Hin as [Heq|Hin].
    + simplify_eq. by rewrite String.eqb_refl.
    + destruct (String.eqb_spec k' k) as [->|_]; [|by apply IH].
      destruct Hk'. apply list_elem_of_fmap. by exists (k, v).
Qed.

Lemma is_system_index_false idx pre :
  is_system_index idx = false -> pre ∈ SYSTEM_INDICES -> startswith idx pre = false.
Proof.
  unfold is_system_index. intros Hsys Hpre.
  destruct (startswith idx pre) eqn:Hst; [|done].
  assert (existsb (startswith idx) SYSTEM_INDICES = true) as Hex; [|congruence].
  apply existsb_exists. exists pre. by rewrite <- list_elem_of_In.
Qed.

Lemma needs_restore_true local_indices idx snap_size :
  needs_restore local_indices idx snap_size = true ->
  local_indices !! idx = None
  \/ exists local, local_indices !! idx = Some local /\ snap_size > local_size local.
Proof.
  unfold needs_restore. destruct (local_indices !! idx) as [local|]; [|by left].
  intros H. right. exists local. split; [done|]. by apply Z.gtb_gt.
Qed.

(** The batch is a prefix of the candidates sorted largest first. *)
Lemma pick_indices_to_restore_prefix snapshot_indices local_indices :
  exists picked rest,
    sort_largest_first (to_restore snapshot_indices local_indices) = picked ++ rest
    /\ pick_indices_to_restore snapshot_indices local_indices = picked.*1
    /\ (forall taken idx size later,
          picked = taken ++ (idx, size) :: later ->
          Zsum taken.*2 + size <= MAX_RESTORE_BYTES)
    /\ match rest with
       | [] => True
       | (_, size) :: _ => Zsum picked.*2 + size > MAX_RESTORE_BYTES
       end.
Proof.
  unfold pick_indices_to_restore.
  destruct (fill_batch_spec
              (sort_largest_first (to_restore snapshot_indices local_indices)) [] 0)
    as (picked & rest & Hsplit & Hfill & Hfit & Hrest).
  exists picked, rest. split_and!; done.
Qed.

Lemma picked_total (picked : list (string * Z)) :
  (forall taken idx size later,
     picked = taken ++ (idx, size) :: later ->
     Zsum taken.*2 + size <= MAX_RESTORE_BYTES) ->
  Zsum picked.*2 <= MAX_RESTORE_BYTES.
Proof.
  destruct (decide (picked = [])) as [->|Hne]; [intros _; by vm_compute|].
  intros Hfit.
  destruct (exists_last Hne) as (taken & [idx size] & ->).
  specialize (Hfit taken idx size [] eq_refl).
  rewrite fmap_app, Zsum_app. simpl. lia.
Qed.

(** C1. For a snapshot dict (distinct keys) and any local dict, the batch of
    [pick_indices_to_restore] has snapshot sizes that sum to at most
    [MAX_RESTORE_BYTES], holds no index whose name starts with a prefix of
    [SYSTEM_INDICES], and every index in it is a candidate: missing from
    the local dict, or with a snapshot size above its local size. *)
Theorem pick_indices_to_restore_invariants
    (snapshot_indices : list (string * Z)) (local_indices : gmap string local_index) :
  NoDup snapshot_indices.*1 ->
  let batch := pick_indices_to_restore snapshot_indices local_indices in
  Zsum (snapshot_size snapshot_indices <$> batch) <= MAX_RESTORE_BYTES
  /\ (forall idx pre, idx ∈ batch -> pre ∈ SYSTEM_INDICES -> startswith idx pre = false)
  /\ (forall idx, idx ∈ batch ->
        exists snap_size,
          dict_get snapshot_indices idx = Some snap_size
          /\ (local_indices !! idx = None
              \/ exists local,
                   local_indices !! idx = Some local /\ snap_size > local_size local)).
Proof.
  intros Hnd batch.
  destruct (pick_indices_to_restore_prefix snapshot_indices local_indices)
    as (picked & rest & Hsplit & Hbatch & Hfit & _).
  assert (forall idx size, (idx, size) ∈ picked ->
            (idx, size) ∈ snapshot_indices
            /\ is_system_index idx = false
            /\ needs_restore local_indices idx size = true) as Hcand.
  { intros idx size Hin. apply elem_of_to_restore.
    rewrite <- sort_largest_first_perm, Hsplit. apply elem_of_app. by left. }
  subst batch. rewrite Hbatch. split_and!.
  - assert (snapshot_size snapshot_indices <$> picked.*1 = picked.*2) as ->.
    { rewrite <- list_fmap_compose. apply Forall_fmap_ext, Forall_forall.
      intros [idx size] Hin. apply Hcand in Hin as (Hin & _).
      unfold snapshot_size. simpl. by rewrite (dict_get_NoDup _ _ _ Hnd Hin). }
    by apply picked_total.
  - intros idx pre Hin Hpre.
    apply list_elem_of_fmap in Hin as ([i s] & -> & Hin).
    apply Hcand in Hin as (_ & Hsys & _). by eapply is_system_index_false.
  - intros idx Hin.
    apply list_elem_of_fmap in Hin as ([i s] & -> & Hin).
    apply Hcand in Hin as (Hin & _ & Hneed).
    exists s. split; [by apply dict_get_NoDup|by apply needs_restore_true].
Qed.

Lemma pick_indices_to_restore_invariants_witness :
  let snapshot_indices :=
    [("logs-a", 300 * 10 ^ 9); (".kibana_1", 5); ("logs-b", 200 * 10 ^ 9);
     ("logs-c", 250 * 10 ^ 9)] in
  let local_indices : gmap string local_index :=
    {["logs-b" := LocalIndex 10 (100 * 10 ^ 9)]} in
  let batch := pick_indices_to_restore snapshot_indices local_indices in
  NoDup snapshot_indices.*1
  /\ Zsum (snapshot_size snapshot_indices <$> batch) <= MAX_RESTORE_BYTES
  /\ (forall idx pre, idx ∈ batch -> pre ∈ SYSTEM_INDICES -> startswith idx pre = false)
  /\ (forall idx, idx ∈ batch ->
        exists snap_size,
          dict_get snapshot_indices idx = Some snap_size
          /\ (local_indices !! idx = None
              \/ exists local,
                   local_indices !! idx = Some local /\ snap_size > local_size local)).
Proof.
  intros snapshot_indices local_indices batch.
  assert (NoDup snapshot_indices.*1) as Hnd
    by (apply (bool_decide_unpack _); vm_compute; exact I).
  split; [exact Hnd|].
  exact (pick_indices_to_restore_invariants snapshot_indices local_indices Hnd).
Defined.

(** C3. The batch of [pick_indices_to_restore] is a prefix [picked] of the
    candidates in descending order of snapshot size: every entry of
    [picked] kept the running total within [MAX_RESTORE_BYTES] when it
    was added, the first candidate after [picked], when there is one,
    would have exceeded it, and neither it nor any later candidate is in
    the batch. *)
Theorem pick_indices_to_restore_greedy
    (snapshot_indices : list (string * Z)) (local_indices : gmap string local_index) :
  exists picked rest,
    picked ++ rest ≡ₚ to_restore snapshot_indices local_indices
    /\ StronglySorted (fun a b => a.2 >= b.2) (picked ++ rest)
    /\ pick_indices_to_restore snapshot_indices local_indices = picked.*1
    /\ (forall taken idx size later,
          picked = taken ++ (idx, size) :: later ->
          Zsum taken.*2 + size <= MAX_RESTORE_BYTES)
    /\ match rest with
       | [] => True
       | (_, size) :: _ => Zsum picked.*2 + size > MAX_RESTORE_BYTES
       end.
Proof.
  destruct (pick_indices_to_restore_prefix snapshot_indices local_indices)
    as (picked & rest & Hsplit & Hbatch & Hfit & Hrest).
  exists picked, rest. split_and!; try done.
  - rewrite <- Hsplit. apply sort_largest_first_perm.
  - rewrite <- Hsplit. apply sort_largest_first_descending.
Qed.

(** C2, as the code has it. Of three candidates of sizes 300, 200 and 250
    (in units of 10^9 bytes, the ceiling being 500 of them), none of them
    present locally, the batch holds the size-300 index alone: in
    descending order the size-250 index comes second, 300 + 250 exceeds
    the ceiling, and the loop stops there. *)
Theorem greedy_packing_300_200_250 (a b c : string)
    (local_indices : gmap string local_index) :
  is_system_index a = false -> is_system_index b = false ->
  is_system_index c = false ->
  local_indices !! a = None -> local_indices !! b = None ->
  local_indices !! c = None ->
  pick_indices_to_restore
    [(a, 300 * 10 ^ 9); (b, 200 * 10 ^ 9); (c, 250 * 10 ^ 9)] local_indices
  = [a].
Proof.
  intros Ha Hb Hc Hla Hlb Hlc.
  unfold pick_indices_to_restore, to_restore, needs_restore.
  rewrite Ha, Hb, Hc, Hla, Hlb, Hlc. reflexivity.
Qed.

Lemma greedy_packing_300_200_250_witness :
  pick_indices_to_restore
    [("idx-300", 300 * 10 ^ 9); ("idx-200", 200 * 10 ^ 9); ("idx-250", 250 * 10 ^ 9)] ∅
  = ["idx-300"].
Proof.
  apply (greedy_packing_300_200_250 "idx-300" "idx-200" "idx-250" ∅);
    reflexivity.
Defined.

(** C2, as the specification has it, fails: the batch for sizes 300, 200
    and 250 is not made of the size-300 and the size-200 index. *)
Lemma greedy_packing_counterexample :
  ~ (pick_indices_to_restore
       [("idx-300", 300 * 10 ^ 9); ("idx-200", 200 * 10 ^ 9); ("idx-250", 250 * 10 ^ 9)] ∅
     ≡ₚ ["idx-300"; "idx-200"]).
Proof.
  intros Hperm. apply Permutation_length in Hperm.
  vm_compute in Hperm. discriminate.
Qed.

(** ** The size parser *)

Lemma chars_app s1 s2 : chars (s1 +:+ s2) = chars s1 ++ chars s2.
Proof. induction s1 as [|c s1 IH]; simpl; [done|]. unfold chars in *. simpl. by rewrite IH. Qed.

Lemma chars_str l : chars (str l) = l.
Proof. apply String.list_ascii_of_string_of_list_ascii. Qed.

Lemma str_chars s : str (chars s) = s.
Proof. apply String.string_of_list_ascii_of_string. Qed.

Lemma drop_continuation_app l1 c l2 :
  forallb is_continuation l1 = true -> is_continuation c = false ->
  drop_continuation (l1 ++ c :: l2) = c :: l2.
Proof.
  intros Hl1 Hc. induction l1 as [|d l1 IH]; simpl.
  - by rewrite Hc.
  - apply andb_true_iff in Hl1 as [-> Hl1]. by apply IH.
Qed.

(** The last character of a text goes as a whole. *)
Lemma drop_last_char_one_char ch l :
  one_char ch = true -> drop_last_char (rev (chars ch) ++ l) = l.
Proof.
  unfold one_char, drop_last_char. destruct (chars ch) as [|c cs]; [done|].
  intros [Hc Hcs]%andb_true_iff. apply negb_true_iff in Hc.
  simpl. rewrite <- (assoc_L (++)). simpl.
  rewrite drop_continuation_app; [done| |done].
  apply forallb_forall. intros x Hx%in_rev. revert x Hx. by apply forallb_forall.
Qed.

Lemma drop_last_2 t ch : one_char ch = true -> drop_last 2 (t +:+ ch +:+ "b") = t.
Proof.
  intros Hch. unfold drop_last. rewrite !chars_app, !rev_app_distr. simpl.
  change (drop_last_char ("b"%char :: ?l)) with l.
  rewrite drop_last_char_one_char by done.
  by rewrite rev_involutive, str_chars.
Qed.

Lemma endswith_b t ch : endswith (t +:+ ch +:+ "b") "b" = true.
Proof.
  unfold endswith. apply bool_decide_eq_true. rewrite !chars_app.
  exists (chars t ++ chars ch). by rewrite <- (assoc_L (++)).
Qed.

(** In front of a [b], a unit letter ends the text only as the character
    that it is. *)
Lemma endswith_unit t ch d :
  one_char ch = true -> is_continuation d = false ->
  endswith (t +:+ ch +:+ "b") (String d "b") = bool_decide (ch = String d "").
Proof.
  intros Hch Hd. unfold endswith. apply bool_decide_ext.
  rewrite !chars_app.
  change (chars (String d "b")) with ([d] ++ ["b"%char]). change (chars "b") with ["b"%char].
  rewrite !(assoc_L (++)). split.
  - intros Hsuf%suffix_snoc_inv_2.
    unfold one_char in Hch. rewrite <- (str_chars ch).
    destruct (chars ch) as [|c cs]; [done|].
    apply andb_true_iff in Hch as [_ Hcs].
    destruct (decide (cs = [])) as [->|Hne].
    + apply (suffix_snoc_inv_1 _ _ [] (chars t)) in Hsuf. by subst.
    + destruct (exists_last Hne) as (cs' & x & ->).
      rewrite app_comm_cons, (assoc_L (++)) in Hsuf.
      apply (suffix_snoc_inv_1 _ _ []) in Hsuf. subst x.
      rewrite forallb_app in Hcs. apply andb_true_iff in Hcs as [_ Hx].
      simpl in Hx. by rewrite Hd in Hx.
  - intros ->. change (chars (String d "")) with [d].
    rewrite <- !(assoc_L (++)). by apply suffix_app_r.
Qed.

Lemma append_nonempty t c r : String.eqb (t +:+ String c r) "" = false.
Proof. by destruct t. Qed.

Lemma append_char_nonempty t ch r : one_char ch = true -> String.eqb (t +:+ ch +:+ r) "" = false.
Proof. destruct ch; [done|]. intros _. apply append_nonempty. Qed.

(** A size that ends in one of the four unit suffixes: the number in
    front of the suffix, as [float] reads it, times the power of 1024. *)
Lemma parse_size_unit t sfx n :
  (sfx, n) ∈ unit_suffixes ->
  parse_size (t +:+ sfx)
  = match float_of_str t with
    | Ok num => int_of_float (float_mul num (float_of_int (1024 ^ n)))
    | Raise e => Raise e
    end.
Proof.
  intros Hin. unfold unit_suffixes in Hin.
  repeat (apply elem_of_cons in Hin as [[= -> ->]|Hin]);
    [..|by apply elem_of_nil in Hin];
    unfold parse_size;
    match goal with
    | |- context [t +:+ String ?c "b"] =>
        change (t +:+ String c "b") with (t +:+ String c "" +:+ "b")
    end;
    rewrite endswith_b, drop_last_2, !endswith_unit by done;
    destruct (float_of_str t); reflexivity.
Qed.

(** A size that ends in [b] after a character that makes no unit suffix:
    [size[:-2]] drops that character together with the [b]. *)
Lemma parse_size_b t ch :
  one_char ch = true ->
  ch ∉ ["k"; "m"; "g"; "t"] ->
  parse_size (t +:+ ch +:+ "b")
  = match float_of_str t with
    | Ok num => int_of_float num
    | Raise e => Raise e
    end.
Proof.
  intros Hch Hc. unfold parse_size.
  rewrite endswith_b, drop_last_2, !endswith_unit by done.
  rewrite !bool_decide_eq_false_2; [done|..]; intros ->; apply Hc; set_solver.
Qed.

(** *** Numbers in ASCII *)

Lemma code_points_from_ascii l :
  forallb is_ascii l = true -> code_points_from 0 0 0 l = map N_of_ascii l.
Proof.
  induction l as [|c l IH]; [done|].
  intros [Hc Hl]%andb_true_iff. cbn [code_points_from map].
  unfold is_ascii in Hc. by rewrite Hc, IH.
Qed.

(** [int] and [float] parse an ASCII text as it is. *)
Lemma number_text_ascii s : forallb is_ascii (chars s) = true -> number_text s = chars s.
Proof.
  intros Hs. unfold number_text, code_points. rewrite code_points_from_ascii by done.
  assert (forallb (fun c => c <? 128)%N (map N_of_ascii (chars s)) = true) as ->.
  { apply forallb_forall. intros n (c & <- & Hc)%in_map_iff.
    revert c Hc. by apply forallb_forall. }
  rewrite map_map. rewrite <- (map_id (chars s)) at 2.
  apply map_ext. intros c. apply ascii_N_embedding.
Qed.

Lemma is_digit_ascii c : is_digit c = true -> is_ascii c = true.
Proof.
  unfold is_digit, is_ascii, nat_of_ascii.
  intros [_ H%Nat.leb_le]%andb_true_iff. apply N.ltb_lt. lia.
Qed.

Lemma number_text_digits digits :
  forallb is_digit digits = true -> number_text (str digits) = digits.
Proof.
  intros Hall. rewrite number_text_ascii; rewrite chars_str; [done|].
  apply forallb_forall. intros c Hc. apply is_digit_ascii.
  revert c Hc. by apply forallb_forall.
Qed.

Lemma is_digit_not_space c : is_digit c = true -> is_space c = false.
Proof.
  unfold is_digit, is_space. generalize (nat_of_ascii c). intros n Hn.
  apply andb_true_iff in Hn as [H1%Nat.leb_le H2%Nat.leb_le].
  apply orb_false_iff. split.
  - apply andb_false_iff. right. apply Nat.leb_gt. lia.
  - apply Nat.eqb_neq. lia.
Qed.

Lemma lstrip_digits c l : is_digit c = true -> lstrip (c :: l) = c :: l.
Proof. intros Hc. simpl. by rewrite (is_digit_not_space c Hc). Qed.

Lemma strip_digits l :
  l <> [] -> forallb is_digit l = true -> strip l = l.
Proof.
  intros Hne Hall. unfold strip.
  destruct l as [|c l]; [done|].
  rewrite lstrip_digits by (by apply andb_true_iff in Hall as [? _]).
  assert (forallb is_digit (rev (c :: l)) = true) as Hrev.
  { apply forallb_forall. intros x Hx%in_rev. revert x Hx. by apply forallb_forall. }
  destruct (rev (c :: l)) as [|d l'] eqn:Heq.
  { apply (f_equal length) in Heq. rewrite length_rev in Heq. discriminate. }
  rewrite lstrip_digits by (by apply andb_true_iff in Hrev as [? _]).
  by rewrite <- Heq, rev_involutive.
Qed.

Lemma take_sign_digit c l : is_digit c = true -> take_sign (c :: l) = (false, c :: l).
Proof.
  intros Hc. unfold take_sign.
  destruct (Ascii.eqb_spec c "+") as [->|_]; [discriminate|].
  destruct (Ascii.eqb_spec c "-") as [->|_]; [discriminate|]. done.
Qed.

Lemma digitpart_rest_digits l acc n :
  forallb is_digit l = true ->
  digitpart_rest l acc n
  = (fold_left (fun acc c => 10 * acc + digit_value c) l acc, (n + length l)%nat, []).
Proof.
  revert acc n. induction l as [|c l IH]; intros acc n Hall; simpl.
  - by rewrite Nat.add_0_r.
  - apply andb_true_iff in Hall as [Hc Hall]. rewrite Hc, IH by done.
    by rewrite Nat.add_succ_r.
Qed.

(** [int] reads a string of decimal digits as the number it denotes, up
    to [INT_MAX_STR_DIGITS] digits, and raises [ValueError] on more. *)
Lemma int_of_str_digits digits :
  digits <> [] -> forallb is_digit digits = true ->
  int_of_str (str digits)
  = if INT_MAX_STR_DIGITS <? Z.of_nat (length digits) then Raise ValueError
    else Ok (decimal_value digits).
Proof.
  intros Hne Hall. unfold int_of_str.
  rewrite number_text_digits, strip_digits by done.
  destruct digits as [|c l]; [done|].
  apply andb_true_iff in Hall as [Hc Hall].
  rewrite take_sign_digit by done.
  unfold digitpart. rewrite Hc, digitpart_rest_digits by done.
  reflexivity.
Qed.

Lemma endswith_b_digits digits :
  forallb is_digit digits = true -> endswith (str digits) "b" = false.
Proof.
  intros Hall. unfold endswith. apply bool_decide_eq_false.
  rewrite chars_str. intros [k ->].
  rewrite forallb_app in Hall. apply andb_true_iff in Hall as [_ Hb].
  discriminate.
Qed.

Lemma str_nonempty l : l <> [] -> String.eqb (str l) "" = false.
Proof. by destruct l. Qed.

(** *** Texts that are no number *)

Lemma code_points_from_snoc acc more low l c :
  is_ascii c = true ->
  exists cs, code_points_from acc more low (l ++ [c]) = cs ++ [N_of_ascii c].
Proof.
  intros Hc.
  assert (is_continuation c = false) as Hcont.
  { unfold is_ascii in Hc. apply N.ltb_lt in Hc.
    unfold is_continuation, nat_of_ascii. apply andb_false_iff. left.
    apply Nat.leb_gt. lia. }
  revert acc more low. induction l as [|d l IH]; intros acc more low.
  - unfold is_ascii in Hc. simpl. rewrite Hc, Hcont.
    destruct more; [by exists []|by exists [REPLACEMENT]].
  - cbn [app code_points_from].
    assert (forall x acc more low,
              exists cs, x :: code_points_from acc more low (l ++ [c])
                         = cs ++ [N_of_ascii c]) as Hcons.
    { intros x acc' more' low'. destruct (IH acc' more' low') as [cs ->].
      by exists (x :: cs). }
    assert (forall x y acc more low,
              exists cs, x :: y :: code_points_from acc more low (l ++ [c])
                         = cs ++ [N_of_ascii c]) as Hcons2.
    { intros x y acc' more' low'. destruct (IH acc' more' low') as [cs ->].
      by exists (x :: y :: cs). }
    destruct more as [|[|more]];
      repeat match goal with
             | |- context [if ?b then _ else _] => destruct b
             end; auto.
Qed.

(** An ASCII character at the end of a text is at the end of what [int]
    and [float] parse. *)
Lemma number_text_snoc t c :
  (N_of_ascii c <? 127)%N = true ->
  exists l, number_text (t +:+ String c "") = l ++ [c].
Proof.
  intros Hc. unfold number_text, code_points. rewrite chars_app.
  destruct (code_points_from_snoc 0 0 0 (chars t) c) as [cs Hcs].
  { apply N.ltb_lt in Hc. apply N.ltb_lt. lia. }
  change (chars (String c "")) with [c]. rewrite Hcs.
  destruct (forallb _ _); rewrite map_app; simpl.
  - rewrite ascii_N_embedding. by eexists.
  - unfold ascii_of_code_point. rewrite Hc, ascii_N_embedding. by eexists.
Qed.

Lemma lstrip_snoc l c : is_space c = false -> exists l', lstrip (l ++ [c]) = l' ++ [c].
Proof.
  intros Hc. induction l as [|d l IH]; simpl.
  - rewrite Hc. by exists [].
  - destruct (is_space d); [done|]. by exists (d :: l).
Qed.

Lemma strip_snoc l c : is_space c = false -> exists l', strip (l ++ [c]) = l' ++ [c].
Proof.
  intros Hc. unfold strip. destruct (lstrip_snoc l c Hc) as [l' ->].
  rewrite rev_app_distr. simpl. rewrite Hc. simpl.
  rewrite rev_involutive. by exists l'.
Qed.

Lemma take_sign_snoc l c :
  c <> "+"%char -> c <> "-"%char -> exists l', (take_sign (l ++ [c])).2 = l' ++ [c].
Proof.
  intros Hplus Hminus. destruct l as [|d l]; simpl.
  - destruct (Ascii.eqb_spec c "+"); [done|]. destruct (Ascii.eqb_spec c "-"); [done|].
    by exists [].
  - destruct (Ascii.eqb d "+"); [by exists l|].
    destruct (Ascii.eqb d "-"); [by exists l|]. by exists (d :: l).
Qed.

(** [digitpart_rest] leaves nothing only of digits and underscores. *)
Lemma digitpart_rest_all len :
  forall l acc n v n',
    (length l <= len)%nat ->
    digitpart_rest l acc n = (v, n', []) ->
    Forall (fun c => is_digit c = true \/ c = "_"%char) l.
Proof.
  induction len as [|len IH]; intros l acc n v n' Hlen.
  { destruct l; [constructor|simpl in Hlen; lia]. }
  destruct l as [|c l]; [constructor|]. simpl in Hlen. simpl.
  destruct (is_digit c) eqn:Hc.
  - intros Hrest. constructor; [by left|]. eapply IH; [|exact Hrest]. lia.
  - destruct (Ascii.eqb_spec c "_") as [->|]; [|done].
    destruct l as [|d l]; [done|].
    destruct (is_digit d) eqn:Hd; [|done].
    intros Hrest. constructor; [by right|]. constructor; [by left|].
    eapply IH; [|exact Hrest]. simpl in Hlen. lia.
Qed.

(** A text that ends in an ASCII character other than a digit, an
    underscore, a sign or a blank is no [int]. *)
Lemma int_of_str_no_number t c :
  (N_of_ascii c <? 127)%N = true ->
  is_space c = false -> is_digit c = false ->
  c <> "_"%char -> c <> "+"%char -> c <> "-"%char ->
  int_of_str (t +:+ String c "") = Raise ValueError.
Proof.
  intros Hascii Hspace Hdigit Hunder Hplus Hminus. unfold int_of_str.
  destruct (number_text_snoc t c Hascii) as [l ->].
  destruct (strip_snoc l c Hspace) as [l' ->].
  destruct (take_sign_snoc l' c Hplus Hminus) as [l'' Hsign].
  destruct (take_sign (l' ++ [c])) as [neg rest]. simpl in Hsign. subst rest.
  unfold digitpart. destruct l'' as [|d l'']; simpl.
  { by rewrite Hdigit. }
  destruct (is_digit d); [|done].
  destruct (digitpart_rest (l'' ++ [c]) (10 * 0 + digit_value d) 1)
    as [[v n] rest] eqn:Hrest.
  destruct rest; [|done].
  apply (digitpart_rest_all _ _ _ _ _ _ (Nat.le_refl _)) in Hrest.
  apply Forall_app in Hrest as [_ Hc]. apply Forall_singleton in Hc as [Hc|Hc].
  - by rewrite Hc in Hdigit.
  - done.
Qed.

(** A size that ends in an upper-case [B] matches no suffix and is no
    [int]. *)
Lemma size_bytes_upper_case_B t : size_bytes (Some (PyStr (t +:+ "B"))) = Ok 0.
Proof.
  unfold size_bytes. simpl. rewrite append_nonempty. unfold parse_size.
  assert (endswith (t +:+ "B") "b" = false) as ->.
  { unfold endswith. apply bool_decide_eq_false. rewrite chars_app.
    change (chars "B") with ["B"%char]. change (chars "b") with ["b"%char].
    intros Hsuf. by apply (suffix_snoc_inv_1 _ _ [] (chars t)) in Hsuf. }
  by rewrite int_of_str_no_number.
Qed.

(** The value of [size_bytes] does not depend on the logging: the
    computation of the run returns what [size_bytes] gives. *)
Lemma size_bytes_of_row_value {World} (idx : cat_row) (w : World) :
  (size_bytes_of_row idx w).1.1 = size_bytes (row_store_size idx)
  /\ (size_bytes_of_row idx w).1.2 = w.
Proof.
  unfold size_bytes_of_row, size_bytes.
  destruct (default (PyStr "0b") (row_store_size idx)) as [|size| |]; try done.
  destruct (String.eqb size ""); [done|].
  unfold try_except, lift.
  destruct (parse_size size) as [n|e]; [done|].
  by destruct (is_value_or_type_error e).
Qed.

(** C4, as the code has it. A string that ends in [kb], [mb], [gb] or
    [tb] in lower case gives the number in front of the suffix, read as a
    binary64 float, times 1024^n for n = 1..4, truncated to an integer
    (when the product is finite); so ["1.5gb"] gives 1.5 * 1024^3. The
    suffix is matched in lower case only: a string that ends in an
    upper-case [B], such as ["1.5GB"], gives 0. A string of decimal
    digits gives the integer it denotes when it has no more than 4300
    digits, so ["42"] gives 42, and 0 when it has more. The strings
    ["bogus"] and [""], a [null] and a missing field give 0 without an
    exception. *)
Theorem size_bytes_units_and_integers :
  (forall t num sfx n bytes,
     (sfx, n) ∈ unit_suffixes ->
     float_of_str t = Ok num ->
     int_of_float (float_mul num (float_of_int (1024 ^ n))) = Ok bytes ->
     size_bytes (Some (PyStr (t +:+ sfx))) = Ok bytes)
  /\ (forall t, size_bytes (Some (PyStr (t +:+ "B"))) = Ok 0)
  /\ (forall digits,
        digits <> [] -> forallb is_digit digits = true ->
        Z.of_nat (length digits) <= INT_MAX_STR_DIGITS ->
        size_bytes (Some (PyStr (str digits))) = Ok (decimal_value digits))
  /\ (forall digits,
        forallb is_digit digits = true ->
        INT_MAX_STR_DIGITS < Z.of_nat (length digits) ->
        size_bytes (Some (PyStr (str digits))) = Ok 0)
  /\ size_bytes (Some (PyStr "1.5gb")) = Ok (3 * 2 ^ 29)
  /\ size_bytes (Some (PyStr "1.5GB")) = Ok 0
  /\ size_bytes (Some (PyStr "42")) = Ok 42
  /\ size_bytes (Some (PyStr "bogus")) = Ok 0
  /\ size_bytes (Some (PyStr "")) = Ok 0
  /\ size_bytes (Some PyNone) = Ok 0
  /\ size_bytes None = Ok 0.
Proof.
  split; [|split; [|split; [|split; [|by vm_compute]]]].
  - intros t num sfx n bytes Hin Hnum Hbytes.
    assert (String.eqb (t +:+ sfx) "" = false) as Hne.
    { unfold unit_suffixes in Hin.
      repeat (apply elem_of_cons in Hin as [[= -> ->]|Hin]);
        [..|by apply elem_of_nil in Hin]; apply append_nonempty. }
    unfold size_bytes. simpl. rewrite Hne.
    by rewrite (parse_size_unit t sfx n Hin), Hnum, Hbytes.
  - apply size_bytes_upper_case_B.
  - intros digits Hne Hall Hlen.
    unfold size_bytes, parse_size. simpl.
    rewrite str_nonempty, endswith_b_digits, int_of_str_digits by done.
    by rewrite (proj2 (Z.ltb_ge _ _) Hlen).
  - intros digits Hall Hlen.
    assert (digits <> []) as Hne.
    { intros ->. unfold INT_MAX_STR_DIGITS in Hlen. simpl in Hlen. lia. }
    unfold size_bytes, parse_size. simpl.
    rewrite str_nonempty, endswith_b_digits, int_of_str_digits by done.
    by rewrite (proj2 (Z.ltb_lt _ _) Hlen).
Qed.

Lemma size_bytes_units_and_integers_witness :
  size_bytes (Some (PyStr ("12.3" +:+ "gb"))) = Ok 13207024435
  /\ size_bytes (Some (PyStr (str ["2"; "2"; "5"]%char))) = Ok 225
  /\ size_bytes (Some (PyStr (str (repeat "7"%char 4301)))) = Ok 0.
Proof.
  split; [|split].
  - apply (proj1 size_bytes_units_and_integers "12.3"
             (S754_finite false 6924284427082138 (-49)) "gb" 3 13207024435).
    + unfold unit_suffixes. set_solver.
    + vm_compute. reflexivity.
    + vm_compute. reflexivity.
  - apply (proj1 (proj2 (proj2 size_bytes_units_and_integers)) ["2"; "2"; "5"]%char).
    + discriminate.
    + reflexivity.
    + vm_compute. discriminate.
  - apply (proj1 (proj2 (proj2 (proj2 size_bytes_units_and_integers)))
             (repeat "7"%char 4301)).
    + vm_compute. reflexivity.
    + vm_compute. reflexivity.
Defined.

(** C4, as the specification has it, fails on two counts. The suffix is
    matched in lower case only: ["1.5GB"] gives 0, not 1.5 * 1024^3. And
    for a bare [b] the slice [size[:-2]] also drops the last digit:
    ["42b"] gives 4, not 42. *)
Lemma size_bytes_counterexample :
  ~ (size_bytes (Some (PyStr "1.5GB")) = Ok (3 * 2 ^ 29))
  /\ ~ (size_bytes (Some (PyStr "42b")) = Ok 42).
Proof. split; vm_compute; discriminate. Qed.

(** What the code gives on these two inputs. *)
Lemma size_bytes_upper_case_and_bare_b :
  size_bytes (Some (PyStr "1.5GB")) = Ok 0
  /\ size_bytes (Some (PyStr "42b")) = Ok 4
  /\ size_bytes (Some (PyStr "225b")) = Ok 22.
Proof. by vm_compute. Qed.

(** An infinite or overflowing number in front of a unit suffix makes
    [int(num)] raise [OverflowError], which the [except] clause of line
    125 does not catch. *)
Lemma size_bytes_overflow :
  size_bytes (Some (PyStr "infkb")) = Raise OverflowError
  /\ size_bytes (Some (PyStr "1e999mb")) = Raise OverflowError.
Proof. by vm_compute. Qed.

(** ** Traces and effects *)

Lemma health_polls_app t1 t2 : health_polls (t1 ++ t2) = (health_polls t1 + health_polls t2)%nat.
Proof.
  induction t1 as [|e t1 IH]; [done|].
  destruct e as [B r| |]; [destruct r|..]; simpl; by rewrite ?IH.
Qed.

Lemma sleeps_app t1 t2 : sleeps (t1 ++ t2) = (sleeps t1 + sleeps t2)%nat.
Proof.
  induction t1 as [|e t1 IH]; [done|].
  destruct e; simpl; by rewrite ?IH.
Qed.

Lemma restore_requests_app t1 t2 :
  restore_requests (t1 ++ t2) = restore_requests t1 ++ restore_requests t2.
Proof.
  induction t1 as [|e t1 IH]; [done|].
  destruct e as [B r| |]; [destruct r|..]; simpl; by rewrite ?IH.
Qed.

Lemma restore_actions_app t1 t2 :
  restore_actions (t1 ++ t2) = restore_actions t1 ++ restore_actions t2.
Proof.
  induction t1 as [|e t1 IH]; [done|].
  destruct e as [B r| |]; [destruct r|..]; simpl; by rewrite ?IH.
Qed.

Lemma processed_cons e t : processed (e :: t) = processed [e] ++ processed t.
Proof.
  destruct e as [B r| |lvl template args]; try done.
  cbn [processed].
  repeat (match goal with
          | |- context [match ?x with _ => _ end] => destruct x
          end; try done).
Qed.

Lemma processed_app t1 t2 : processed (t1 ++ t2) = processed t1 ++ processed t2.
Proof.
  induction t1 as [|e t1 IH]; [done|].
  rewrite <- app_comm_cons, (processed_cons e (t1 ++ t2)), (processed_cons e t1), IH.
  by rewrite (assoc_L (++)).
Qed.

Lemma health_checks_cons e t :
  health_checks (e :: t) = health_checks [e] ++ health_checks t.
Proof.
  destruct e as [B r| |lvl template args]; try done.
  cbn [health_checks].
  repeat (match goal with
          | |- context [match ?x with _ => _ end] => destruct x
          end; try done).
Qed.

Lemma health_checks_app t1 t2 :
  health_checks (t1 ++ t2) = health_checks t1 ++ health_checks t2.
Proof.
  induction t1 as [|e t1 IH]; [done|].
  rewrite <- app_comm_cons, (health_checks_cons e (t1 ++ t2)),
    (health_checks_cons e t1), IH.
  by rewrite (assoc_L (++)).
Qed.

Section Effects.
Context {World : Type}.
Implicit Types allowed : exn -> bool.

Lemma bind_run {A B} (m : M World A) (k : A -> M World B) w :
  (m ≫= k) w
  = match m w with
    | (Ok a, w1, t1) => let '(r, w2, t2) := k a w1 in (r, w2, t1 ++ t2)
    | (Raise e, w1, t1) => (Raise e, w1, t1)
    end.
Proof. done. Qed.

Lemma raises_only_weaken {A} allowed allowed' (m : M World A) :
  (forall e, allowed e = true -> allowed' e = true) ->
  raises_only allowed m -> raises_only allowed' m.
Proof.
  intros Hsub Hm w. specialize (Hm w).
  destruct ((m w).1.1); [done|]. by apply Hsub.
Qed.

Lemma raises_only_ret {A} allowed (a : A) : raises_only allowed (mret a : M World A).
Proof. done. Qed.

Lemma raises_only_emit allowed e : raises_only allowed (emit e : M World unit).
Proof. done. Qed.

Lemma raises_only_bind {A B} allowed (m : M World A) (k : A -> M World B) :
  raises_only allowed m -> (forall a, raises_only allowed (k a)) ->
  raises_only allowed (m ≫= k).
Proof.
  intros Hm Hk w. rewrite bind_run. specialize (Hm w).
  destruct (m w) as [[[a|e] w1] t1]; [|done].
  specialize (Hk a w1). by destruct (k a w1) as [[r w2] t2].
Qed.

Lemma raises_only_try {A} allowed allowed' (body : M World A) catches handler :
  raises_only allowed body ->
  (forall e, raises_only allowed' (handler e)) ->
  (forall e, allowed e = true -> catches e = false -> allowed' e = true) ->
  raises_only allowed' (try_except body catches handler).
Proof.
  intros Hbody Hhandler Hrest w. unfold try_except. specialize (Hbody w).
  destruct (body w) as [[[a|e] w1] t1]; [done|].
  destruct (catches e) eqn:Hc.
  - specialize (Hhandler e w1). by destruct (handler e w1) as [[r w2] t2].
  - by apply Hrest.
Qed.

Lemma raises_only_send (cl : api World) {B} (r : request B) :
  raises_only is_request_exception (send cl r).
Proof. intros w. unfold send. by destruct (cl B r w) as [[resp|] w']. Qed.

Lemma raises_only_raise_for_status {B} (r : response B) :
  raises_only is_request_exception (raise_for_status r : M World B).
Proof. by destruct r. Qed.

Lemma total_run {A} (m : M World A) w :
  total m -> exists a w' t, m w = (Ok a, w', t).
Proof.
  intros Hm. specialize (Hm w).
  destruct (m w) as [[[a|e] w'] t]; [eauto|done].
Qed.

Lemma silent_ret {A} (a : A) : silent (mret a : M World A).
Proof. done. Qed.

Lemma silent_bind {A B} (m : M World A) (k : A -> M World B) :
  silent m -> (forall a, silent (k a)) -> silent (m ≫= k).
Proof.
  intros Hm Hk w. rewrite bind_run. specialize (Hm w).
  destruct (m w) as [[[a|e] w1] t1]; [|done].
  specialize (Hk a w1). destruct (k a w1) as [[r w2] t2].
  simpl in *. by rewrite processed_app, Hm, Hk.
Qed.

Lemma silent_try {A} (body : M World A) catches handler :
  silent body -> (forall e, silent (handler e)) ->
  silent (try_except body catches handler).
Proof.
  intros Hbody Hhandler w. unfold try_except. specialize (Hbody w).
  destruct (body w) as [[[a|e] w1] t1]; [done|].
  destruct (catches e); [|done].
  specialize (Hhandler e w1). destruct (handler e w1) as [[r w2] t2].
  simpl in *. by rewrite processed_app, Hbody, Hhandler.
Qed.

Lemma silent_send (cl : api World) {B} (r : request B) : silent (send cl r).
Proof. intros w. unfold send. by destruct (cl B r w) as [[resp|] w']. Qed.

Lemma silent_raise_for_status {B} (r : response B) :
  silent (raise_for_status r : M World B).
Proof. by destruct r. Qed.

Lemma silent_sleep n : silent (sleep n : M World unit).
Proof. done. Qed.
End Effects.

(** ** The restore driver *)

Ltac effect_step :=
  match goal with
  | |- total _ => unfold total
  | |- raises_only _ (mret _) => apply raises_only_ret
  | |- raises_only _ (emit _) => apply raises_only_emit
  | |- raises_only _ (fun w => (Ok tt, w, _)) => apply raises_only_emit
  | |- raises_only _ (send _ _) => apply raises_only_send
  | |- raises_only _ (raise_for_status _) => apply raises_only_raise_for_status
  | |- raises_only _ (mbind _ _) => apply raises_only_bind; [|intros ?]
  | |- silent (mret _) => apply silent_ret
  | |- silent (send _ _) => apply silent_send
  | |- silent (raise_for_status _) => apply silent_raise_for_status
  | |- silent (sleep _) => apply silent_sleep
  | |- silent (fun _ => _) => intros ?; reflexivity
  | |- silent (log _ _ _) => intros ?; reflexivity
  | |- silent (mbind _ _) => apply silent_bind; [|intros ?]
  | |- silent (try_except _ _ _) => apply silent_try; [|intros ?]
  end.

Ltac effects := repeat effect_step.

(** A [try] whose body raises request exceptions only and whose handler
    raises nothing. *)
Lemma total_try_request {World A} (body : M World A) handler :
  raises_only is_request_exception body ->
  (forall e, total (handler e)) ->
  total (try_except body is_request_exception handler).
Proof.
  intros Hbody Hhandler.
  apply (raises_only_try is_request_exception); [done|done|].
  intros e He Hc. congruence.
Qed.

Lemma send_run {World} (cl : api World) {B} (r : request B) w :
  send cl r w
  = match cl B r w with
    | (Some resp, w') => (Ok resp, w', [Http r])
    | (None, w') => (Raise (RequestException false), w', [Http r])
    end.
Proof. done. Qed.

Lemma log_run {World} lvl template args (w : World) :
  log lvl template args w = (Ok tt, w, [Log lvl template args]).
Proof. done. Qed.

Lemma sleep_run {World} seconds (w : World) :
  sleep seconds w = (Ok tt, w, [Sleep seconds]).
Proof. done. Qed.

Lemma ret_run {World A} (a : A) (w : World) : (mret a : M World A) w = (Ok a, w, []).
Proof. done. Qed.

(** Runs a computation up to its next request. *)
Ltac run :=
  repeat (progress (rewrite ?bind_run, ?log_run, ?sleep_run, ?ret_run, ?send_run;
                    cbv beta iota)).

Section Driver.
Context {World : Type} (cl : api World).
Implicit Types (w : World) (index snapshot : string).

Lemma total_close_index index : total (close_index cl index).
Proof.
  apply total_try_request; [|intros e]; unfold log; effects.
Qed.

Lemma silent_close_index index : silent (close_index cl index).
Proof. unfold close_index, log, emit. effects. Qed.

Lemma total_open_index index : total (open_index cl index).
Proof.
  apply total_try_request; [|intros e]; unfold log; effects.
Qed.

Lemma silent_open_index index : silent (open_index cl index).
Proof. unfold open_index, log, emit. effects. Qed.

Lemma total_get_index_doc_count index c : total (get_index_doc_count cl index c).
Proof.
  apply total_try_request; [|intros e]; unfold log; effects.
Qed.

Lemma silent_get_index_doc_count index c : silent (get_index_doc_count cl index c).
Proof. unfold get_index_doc_count, log, emit. effects. Qed.

(** [get_index_doc_count] gives the count of an OK answer, and [None]
    when the request raises or the answer is not OK. *)
Lemma get_index_doc_count_run index c w :
  exists t,
    get_index_doc_count cl index c w
    = (Ok match (cl _ (GetCount c index) w).1 with
          | Some (HttpOk count) => Some count
          | _ => None
          end,
       (cl _ (GetCount c index) w).2, t)
    /\ health_polls t = O /\ sleeps t = O /\ restore_requests t = []
    /\ processed t = [] /\ health_checks t = [].
Proof.
  unfold get_index_doc_count, try_except, send. rewrite !bind_run. unfold send.
  destruct (cl _ (GetCount c index) w) as [[[count|code]|] w1]; simpl;
    eexists; (split; [reflexivity|done]).
Qed.

(** [verify_restore_success] is true exactly when the passive cluster
    answers the count request with the expected count. *)
Lemma verify_restore_success_run index expected_docs w :
  exists t,
    verify_restore_success cl index expected_docs w
    = (Ok match (cl _ (GetCount PASSIVE_CLUSTER index) w).1 with
          | Some (HttpOk count) => count =? expected_docs
          | _ => false
          end,
       (cl _ (GetCount PASSIVE_CLUSTER index) w).2, t)
    /\ health_polls t = O /\ sleeps t = O /\ restore_requests t = []
    /\ processed t = [] /\ health_checks t = [].
Proof.
  unfold verify_restore_success, try_except. rewrite bind_run.
  destruct (get_index_doc_count_run index PASSIVE_CLUSTER w)
    as (t & -> & Hp & Hs & Hr & Hsil & Hc).
  destruct (cl _ (GetCount PASSIVE_CLUSTER index) w) as [[[count|code]|] w1]; simpl.
  - destruct (count =? expected_docs); simpl; eexists; (split; [reflexivity|]);
      rewrite health_polls_app, sleeps_app, restore_requests_app, processed_app,
        health_checks_app, Hp, Hs, Hr, Hsil, Hc; done.
  - eexists; split; [reflexivity|].
    rewrite app_nil_r. done.
  - eexists; split; [reflexivity|].
    rewrite app_nil_r. done.
Qed.

(** One iteration of the wait loop: it raises nothing, sends one health
    poll, returns [true] exactly on a green status with the expected
    count, and otherwise has slept once (the counter went up by one). *)
Lemma poll_health_run index expected_docs attempt w :
  exists restored w' t,
    poll_health cl index expected_docs attempt w = (Ok restored, w', t)
    /\ health_polls t = 1%nat
    /\ sleeps t = (if restored then 0 else 1)%nat
    /\ restore_requests t = []
    /\ processed t = []
    /\ restored
       = match cl _ (GetHealth PASSIVE_CLUSTER index) w with
         | (Some (HttpOk status), w1) =>
             String.eqb status "green"
             && match (cl _ (GetCount PASSIVE_CLUSTER index) w1).1 with
                | Some (HttpOk count) => count =? expected_docs
                | _ => false
                end
         | _ => false
         end
    /\ w'
       = match cl _ (GetHealth PASSIVE_CLUSTER index) w with
         | (Some (HttpOk status), w1) =>
             if String.eqb status "green"
             then (cl _ (GetCount PASSIVE_CLUSTER index) w1).2
             else w1
         | (_, w1) => w1
         end
    /\ health_checks t
       = match (cl _ (GetHealth PASSIVE_CLUSTER index) w).1 with
         | Some (HttpOk status) => [(Z.of_nat attempt + 1, status)]
         | _ => []
         end.
Proof.
  unfold poll_health, try_except. rewrite bind_run. unfold send at 1.
  destruct (cl _ (GetHealth PASSIVE_CLUSTER index) w) as [[[status|code]|] w1].
  - rewrite !bind_run. cbn [log emit].
    destruct (String.eqb status "green") eqn:Hgreen.
    + rewrite bind_run.
      destruct (verify_restore_success_run index expected_docs w1)
        as (t & -> & Hp & Hs & Hr & Hsil & Hc).
      destruct (match (cl Z (GetCount PASSIVE_CLUSTER index) w1).1 with
                | Some (HttpOk count) => count =? expected_docs
                | _ => false
                end); simpl;
        do 3 eexists; (split; [reflexivity|]); simpl;
        rewrite ?health_polls_app, ?sleeps_app, ?restore_requests_app, ?processed_app,
          ?health_checks_app, ?Hp, ?Hs, ?Hr, ?Hsil, ?Hc; simpl; by rewrite ?Hgreen.
    + simpl. do 3 eexists. split; [reflexivity|]. by rewrite ?Hgreen.
  - simpl. do 3 eexists. split; [reflexivity|]. done.
  - simpl. do 3 eexists. split; [reflexivity|]. done.
Qed.

(** The wait loop from [remaining] attempts to go: it raises nothing and
    sends at most [remaining] polls, all of them when it gives up; the
    counter went up once for each poll but a successful last one. *)
Lemma poll_until_restored_run index expected_docs remaining attempt w :
  exists restored w' t,
    poll_until_restored cl index expected_docs remaining attempt w
    = (Ok restored, w', t)
    /\ (health_polls t <= remaining)%nat
    /\ (restored = false -> health_polls t = remaining)
    /\ sleeps t = (if restored then health_polls t - 1 else health_polls t)%nat
    /\ (restored = true -> (1 <= health_polls t)%nat)
    /\ restore_requests t = []
    /\ processed t = [].
Proof.
  revert attempt w. induction remaining as [|remaining IH]; intros attempt w.
  - simpl. do 3 eexists. split; [reflexivity|]. split_and!; done.
  - cbn [poll_until_restored]. rewrite bind_run.
    destruct (poll_health_run index expected_docs attempt w)
      as (restored & w1 & t1 & -> & Hp & Hs & Hr & Hsil & _).
    destruct restored.
    + simpl. do 3 eexists. split; [reflexivity|].
      rewrite app_nil_r, Hp, Hs. split_and!; try done; lia.
    + destruct (IH (S attempt) w1)
        as (restored & w2 & t2 & -> & Hp2 & Hall & Hs2 & Hone & Hr2 & Hsil2).
      do 3 eexists. split; [reflexivity|].
      rewrite health_polls_app, sleeps_app, restore_requests_app, processed_app,
        Hp, Hs, Hr, Hsil, Hr2, Hsil2, Hs2.
      split_and!; try done; try lia.
      * intros ->. rewrite (Hall eq_refl). done.
      * destruct restored; [specialize (Hone eq_refl)|]; lia.
Qed.

(** [restore_index] raises nothing and sends at most [max_attempts]
    health polls. *)
Lemma restore_index_run snapshot index expected_docs w :
  exists restored w' t,
    restore_index cl snapshot index expected_docs w = (Ok restored, w', t)
    /\ (health_polls t <= max_attempts)%nat
    /\ processed t = [].
Proof.
  unfold restore_index, try_except. run.
  destruct (cl _ (GetSnapshot PASSIVE_CLUSTER SNAPSHOT_REPO snapshot) w)
    as [[[[]|code]|] w1]; cbn [ok negb]; run.
  - destruct (cl _ (PostRestore PASSIVE_CLUSTER SNAPSHOT_REPO snapshot index false true) w1)
      as [[[[]|code]|] w2]; cbn [ok negb]; run.
    + destruct (poll_until_restored_run index expected_docs max_attempts 0 w2)
        as (restored & w3 & t3 & -> & Hp & _ & _ & _ & _ & Hsil).
      do 3 eexists. split; [reflexivity|].
      rewrite !health_polls_app, !processed_app, Hsil. simpl. split; [lia|done].
    + do 3 eexists. split; [reflexivity|]. simpl. split; [lia|done].
    + do 3 eexists. split; [reflexivity|]. simpl. split; [lia|done].
  - do 3 eexists. split; [reflexivity|]. simpl. split; [lia|done].
  - do 3 eexists. split; [reflexivity|]. simpl. split; [lia|done].
Qed.
End Driver.

(** When an iteration does not return, the loop goes on with one attempt
    less to go and the counter one higher. *)
Lemma poll_until_restored_continue {World} (cl : api World)
    index expected_docs remaining attempt (w w1 : World) t1 :
  poll_health cl index expected_docs attempt w = (Ok false, w1, t1) ->
  poll_until_restored cl index expected_docs (S remaining) attempt w
  = (let '(r, w2, t2) :=
       poll_until_restored cl index expected_docs remaining (S attempt) w1 in
     (r, w2, t1 ++ t2)).
Proof. intros Hpoll. cbn [poll_until_restored]. by rewrite bind_run, Hpoll. Qed.

(** C9. Within one call of [restore_index], for every behaviour of the
    clusters: an iteration of the wait loop raises nothing, sends one
    health poll, and returns only on a green status with the expected
    document count; in every other case (the request raises, the answer
    is not OK, the status is not green, the count is not the expected one
    or cannot be fetched) it sleeps once and the loop goes on with the
    counter one higher and one attempt less to go. So the loop sends at
    most [max_attempts] = 30 polls, exactly 30 when it gives up, and
    [restore_index] always returns [True] or [False]. *)
Theorem restore_index_bounded_polling {World} (cl : api World)
    (snapshot index : string) (expected_docs : Z) :
  (forall attempt w,
     exists restored w' t,
       poll_health cl index expected_docs attempt w = (Ok restored, w', t)
       /\ health_polls t = 1%nat
       /\ sleeps t = (if restored then 0 else 1)%nat
       /\ restored
          = match cl _ (GetHealth PASSIVE_CLUSTER index) w with
            | (Some (HttpOk status), w1) =>
                String.eqb status "green"
                && match (cl _ (GetCount PASSIVE_CLUSTER index) w1).1 with
                   | Some (HttpOk count) => count =? expected_docs
                   | _ => false
                   end
            | _ => false
            end
       /\ (restored = false ->
           forall remaining,
             poll_until_restored cl index expected_docs (S remaining) attempt w
             = (let '(r, w2, t2) :=
                  poll_until_restored cl index expected_docs remaining (S attempt) w' in
                (r, w2, t ++ t2))))
  /\ (forall w,
        exists restored w' t,
          poll_until_restored cl index expected_docs max_attempts 0 w
          = (Ok restored, w', t)
          /\ (health_polls t <= 30)%nat
          /\ (restored = false -> health_polls t = 30%nat)
          /\ sleeps t = (if restored then health_polls t - 1 else health_polls t)%nat)
  /\ (forall w,
        exists restored w' t,
          restore_index cl snapshot index expected_docs w = (Ok restored, w', t)
          /\ (health_polls t <= 30)%nat).
Proof.
  split_and!.
  - intros attempt w.
    destruct (poll_health_run cl index expected_docs attempt w)
      as (restored & w' & t & Hrun & Hp & Hs & _ & _ & Hres & _).
    exists restored, w', t. split_and!; try done.
    intros -> remaining. by apply poll_until_restored_continue.
  - intros w.
    destruct (poll_until_restored_run cl index expected_docs max_attempts 0 w)
      as (restored & w' & t & Hrun & Hp & Hall & Hs & _).
    exists restored, w', t. done.
  - intros w.
    destruct (restore_index_run cl snapshot index expected_docs w)
      as (restored & w' & t & Hrun & Hp & _).
    exists restored, w', t. done.
Qed.

(** C10. When the status is green and the document count cannot be fetched
    from the passive cluster (the request raises, or the answer is not OK),
    [get_index_doc_count] gives [None], [verify_restore_success] gives
    [False] as it does on a mismatch, and the iteration of [restore_index]
    does not return: it sleeps, and the loop goes on with the counter one
    higher and one attempt less to go. *)
Theorem doc_count_failure_continues_polling {World} (cl : api World)
    (index : string) (expected_docs : Z) (attempt remaining : nat)
    (w w1 w2 : World) (answer : option (response Z)) :
  cl _ (GetHealth PASSIVE_CLUSTER index) w = (Some (HttpOk "green"), w1) ->
  cl _ (GetCount PASSIVE_CLUSTER index) w1 = (answer, w2) ->
  (forall count, answer <> Some (HttpOk count)) ->
  (exists t, get_index_doc_count cl index PASSIVE_CLUSTER w1 = (Ok None, w2, t))
  /\ (exists t, verify_restore_success cl index expected_docs w1 = (Ok false, w2, t))
  /\ exists t,
       poll_health cl index expected_docs attempt w = (Ok false, w2, t)
       /\ health_polls t = 1%nat
       /\ sleeps t = 1%nat
       /\ poll_until_restored cl index expected_docs (S remaining) attempt w
          = (let '(r, w3, t3) :=
               poll_until_restored cl index expected_docs remaining (S attempt) w2 in
             (r, w3, t ++ t3)).
Proof.
  intros Hhealth Hcount Hfail.
  assert (match answer with
          | Some (HttpOk count) => Some count
          | _ => None
          end = None) as Hnone.
  { destruct answer as [[count|code]|]; [by destruct (Hfail count)|done|done]. }
  assert (match answer with
          | Some (HttpOk count) => count =? expected_docs
          | _ => false
          end = false) as Hfalse.
  { destruct answer as [[count|code]|]; [by destruct (Hfail count)|done|done]. }
  split_and!.
  - destruct (get_index_doc_count_run cl index PASSIVE_CLUSTER w1) as (t & Hrun & _).
    rewrite Hcount in Hrun. simpl in Hrun. rewrite Hnone in Hrun. eauto.
  - destruct (verify_restore_success_run cl index expected_docs w1) as (t & Hrun & _).
    rewrite Hcount in Hrun. simpl in Hrun. rewrite Hfalse in Hrun. eauto.
  - destruct (poll_health_run cl index expected_docs attempt w)
      as (restored & w' & t & Hrun & Hp & Hs & _ & _ & Hres & Hw' & _).
    rewrite Hhealth, Hcount in Hres, Hw'. simpl in Hres, Hw'.
    rewrite Hfalse in Hres. subst restored w'.
    exists t. split_and!; try done.
    by apply poll_until_restored_continue.
Qed.

(** A mismatch of the document count has the same effect on the wait. *)
Lemma doc_count_mismatch_continues_polling {World} (cl : api World)
    (index : string) (expected_docs count : Z) (attempt remaining : nat)
    (w w1 w2 : World) :
  cl _ (GetHealth PASSIVE_CLUSTER index) w = (Some (HttpOk "green"), w1) ->
  cl _ (GetCount PASSIVE_CLUSTER index) w1 = (Some (HttpOk count), w2) ->
  count <> expected_docs ->
  (exists t, verify_restore_success cl index expected_docs w1 = (Ok false, w2, t))
  /\ exists t,
       poll_health cl index expected_docs attempt w = (Ok false, w2, t)
       /\ health_polls t = 1%nat
       /\ sleeps t = 1%nat
       /\ poll_until_restored cl index expected_docs (S remaining) attempt w
          = (let '(r, w3, t3) :=
               poll_until_restored cl index expected_docs remaining (S attempt) w2 in
             (r, w3, t ++ t3)).
Proof.
  intros Hhealth Hcount Hne. apply Z.eqb_neq in Hne. split.
  - destruct (verify_restore_success_run cl index expected_docs w1) as (t & Hrun & _).
    rewrite Hcount in Hrun. simpl in Hrun. rewrite Hne in Hrun. eauto.
  - destruct (poll_health_run cl index expected_docs attempt w)
      as (restored & w' & t & Hrun & Hp & Hs & _ & _ & Hres & Hw' & _).
    rewrite Hhealth, Hcount in Hres, Hw'. simpl in Hres, Hw'.
    rewrite Hne in Hres. subst restored w'.
    exists t. split_and!; try done.
    by apply poll_until_restored_continue.
Qed.

Lemma doc_count_failure_continues_polling_witness :
  let w := sim_polling [PollStatus "green" None] in
  let w1 := sim_polling [] in
  sim_api _ (GetHealth PASSIVE_CLUSTER "logs-1") w = (Some (HttpOk "green"), w1)
  /\ sim_api _ (GetCount PASSIVE_CLUSTER "logs-1") w1 = (None, w1)
  /\ exists t, verify_restore_success sim_api "logs-1" 100 w1 = (Ok false, w1, t).
Proof.
  intros w w1. split; [reflexivity|]. split; [reflexivity|].
  apply (doc_count_failure_continues_polling sim_api "logs-1" 100 0 29 w w1 w1 None);
    [reflexivity|reflexivity|discriminate].
Defined.

(** ** The restore driver on a simulated sequence of health polls *)

Lemma sim_api_get_snapshot c repo snapshot (w : sim) :
  sim_api _ (GetSnapshot c repo snapshot) w = (Some (HttpOk tt), w).
Proof. done. Qed.

Lemma sim_api_post_restore c repo snapshot index g a (w : sim) :
  sim_api _ (PostRestore c repo snapshot index g a) w = (Some (HttpOk tt), w).
Proof. done. Qed.

(** One iteration of the wait loop on the simulated clusters: it uses up
    the next entry of the script and returns exactly when that entry is
    green with the expected count. *)
Lemma sim_poll_health index expected_docs attempt (w : sim) p polls :
  sim_polls w = p :: polls ->
  exists w' t,
    poll_health sim_api index expected_docs attempt w
    = (Ok (poll_succeeds expected_docs p), w', t)
    /\ health_polls t = 1%nat
    /\ sleeps t = (if poll_succeeds expected_docs p then 0 else 1)%nat
    /\ sim_polls w' = polls
    /\ health_checks t = logged_checks attempt [p].
Proof.
  intros Hpolls.
  destruct (poll_health_run sim_api index expected_docs attempt w)
    as (restored & w' & t & Hrun & Hp & Hs & _ & _ & Hres & Hw' & Hc).
  cbn [sim_api] in Hres, Hw', Hc. rewrite Hpolls in Hres, Hw', Hc.
  assert (restored = poll_succeeds expected_docs p) as Heq.
  { rewrite Hres.
    destruct p as [|code|status [[count|code]|]]; simpl; by rewrite ?andb_false_r. }
  rewrite <- Heq. exists w', t. split_and!; try done.
  - rewrite Hw'. destruct p as [|code|status count]; simpl; try done.
    by destruct (String.eqb status "green").
  - rewrite Hc. by destruct p.
Qed.

(** When the script is over, the poll raises and the loop goes on. *)
Lemma sim_poll_health_over index expected_docs attempt (w : sim) :
  sim_polls w = [] ->
  exists t,
    poll_health sim_api index expected_docs attempt w = (Ok false, w, t)
    /\ health_polls t = 1%nat.
Proof.
  intros Hpolls.
  destruct (poll_health_run sim_api index expected_docs attempt w)
    as (restored & w' & t & Hrun & Hp & Hs & _ & _ & Hres & Hw' & Hc).
  cbn [sim_api] in Hres, Hw'. rewrite Hpolls in Hres, Hw'. subst restored w'.
  by exists t.
Qed.

Lemma sim_poll_until_restored_times_out index expected_docs remaining attempt (w : sim) :
  Forall (fun p => poll_succeeds expected_docs p = false) (sim_polls w) ->
  exists w' t,
    poll_until_restored sim_api index expected_docs remaining attempt w
    = (Ok false, w', t)
    /\ health_polls t = remaining.
Proof.
  revert attempt w. induction remaining as [|remaining IH]; intros attempt w Hnone.
  - do 2 eexists. split; [reflexivity|done].
  - destruct (sim_polls w) as [|p polls] eqn:Hpolls.
    + destruct (sim_poll_health_over index expected_docs attempt w Hpolls)
        as (t1 & Hpoll & Hp).
      rewrite (poll_until_restored_continue _ _ _ _ _ _ _ _ Hpoll).
      destruct (IH (S attempt) w) as (w2 & t2 & -> & Hp2); [by rewrite Hpolls|].
      do 2 eexists. split; [reflexivity|].
      rewrite health_polls_app. lia.
    + apply Forall_cons in Hnone as [Hfail Hnone].
      destruct (sim_poll_health index expected_docs attempt w p polls Hpolls)
        as (w1 & t1 & Hpoll & Hp & _ & Hpolls1 & _).
      rewrite Hfail in Hpoll.
      rewrite (poll_until_restored_continue _ _ _ _ _ _ _ _ Hpoll).
      destruct (IH (S attempt) w1) as (w2 & t2 & -> & Hp2); [by rewrite Hpolls1|].
      do 2 eexists. split; [reflexivity|].
      rewrite health_polls_app. lia.
Qed.

(** The wait loop on a script whose first successful poll comes after
    [failed]: it returns [True] on that poll, having slept once for each
    poll before it. *)
Lemma sim_poll_until_restored_succeeds index expected_docs remaining attempt (w : sim)
    failed p rest :
  sim_polls w = failed ++ p :: rest ->
  Forall (fun p => poll_succeeds expected_docs p = false) failed ->
  poll_succeeds expected_docs p = true ->
  (length failed < remaining)%nat ->
  exists w' t,
    poll_until_restored sim_api index expected_docs remaining attempt w
    = (Ok true, w', t)
    /\ health_polls t = S (length failed)
    /\ sleeps t = length failed
    /\ health_checks t = logged_checks attempt (failed ++ [p])
    /\ sim_polls w' = rest.
Proof.
  revert remaining attempt w.
  induction failed as [|q failed IH]; intros remaining attempt w Hpolls Hfailed Hsucc Hlt.
  - destruct remaining as [|remaining]; [simpl in Hlt; lia|].
    destruct (sim_poll_health index expected_docs attempt w p rest Hpolls)
      as (w1 & t1 & Hpoll & Hp & Hs & Hpolls1 & Hc).
    rewrite Hsucc in Hpoll, Hs.
    cbn [poll_until_restored]. rewrite bind_run, Hpoll. run.
    do 2 eexists. split; [reflexivity|].
    rewrite app_nil_r. done.
  - destruct remaining as [|remaining]; [simpl in Hlt; lia|].
    apply Forall_cons in Hfailed as [Hfail Hfailed].
    destruct (sim_poll_health index expected_docs attempt w q (failed ++ p :: rest) Hpolls)
      as (w1 & t1 & Hpoll & Hp & Hs & Hpolls1 & Hc).
    rewrite Hfail in Hpoll, Hs.
    rewrite (poll_until_restored_continue _ _ _ _ _ _ _ _ Hpoll).
    destruct (IH remaining (S attempt) w1 Hpolls1 Hfailed Hsucc)
      as (w2 & t2 & -> & Hp2 & Hs2 & Hc2 & Hrest); [simpl in Hlt; lia|].
    do 2 eexists. split; [reflexivity|].
    rewrite health_polls_app, sleeps_app, health_checks_app, Hp, Hs, Hc, Hp2, Hs2, Hc2.
    split_and!; try done.
    by destruct q.
Qed.

(** C7. For every simulated sequence of health polls in which no poll
    finds the index green with the expected document count (a sequence
    that ends early goes on with polls that raise), [restore_index], once
    its restore request is accepted, returns [False] after exactly 30
    health polls; it raises nothing. *)
Theorem restore_index_times_out (snapshot index : string) (expected_docs : Z)
    (polls : list poll) :
  Forall (fun p => poll_succeeds expected_docs p = false) polls ->
  exists w' t,
    restore_index sim_api snapshot index expected_docs (sim_polling polls)
    = (Ok false, w', t)
    /\ health_polls t = 30%nat.
Proof.
  intros Hnone. unfold restore_index, try_except. run.
  rewrite sim_api_get_snapshot. cbn [ok negb]. run.
  rewrite sim_api_post_restore. cbn [ok negb]. run.
  destruct (sim_poll_until_restored_times_out index expected_docs max_attempts 0
              (sim_polling polls) Hnone) as (w' & t & -> & Hp).
  do 2 eexists. split; [reflexivity|].
  rewrite !health_polls_app, Hp. reflexivity.
Qed.

Lemma restore_index_times_out_witness :
  exists w' t,
    restore_index sim_api "snap-1" "logs-1" 100
      (sim_polling [PollStatus "yellow" None; PollRaises; PollHttpError 503;
                    PollStatus "green" (Some (HttpOk 99));
                    PollStatus "green" None;
                    PollStatus "red" (Some (HttpOk 100))])
    = (Ok false, w', t)
    /\ health_polls t = 30%nat.
Proof.
  apply (restore_index_times_out "snap-1" "logs-1" 100).
  repeat constructor.
Defined.

(** C6. For the simulated sequence yellow, yellow, green with another
    document count, green with the expected document count, after an
    accepted restore request: [restore_index] returns [True] on the
    fourth health poll, logged as check 4 of 30; the green poll with the
    other count is the third check and is followed by a sleep and a
    further poll, as the two yellow ones are. *)
Theorem restore_index_succeeds_on_fourth_poll (snapshot index : string)
    (expected_docs other_docs : Z) :
  other_docs <> expected_docs ->
  exists w' t,
    restore_index sim_api snapshot index expected_docs
      (sim_polling [PollStatus "yellow" None; PollStatus "yellow" None;
                    PollStatus "green" (Some (HttpOk other_docs));
                    PollStatus "green" (Some (HttpOk expected_docs))])
    = (Ok true, w', t)
    /\ health_polls t = 4%nat
    /\ health_checks t = [(1, "yellow"); (2, "yellow"); (3, "green"); (4, "green")]
    /\ sleeps t = 3%nat
    /\ sim_polls w' = [].
Proof.
  intros Hne. apply Z.eqb_neq in Hne.
  unfold restore_index, try_except. run.
  rewrite sim_api_get_snapshot. cbn [ok negb]. run.
  rewrite sim_api_post_restore. cbn [ok negb]. run.
  destruct (sim_poll_until_restored_succeeds index expected_docs max_attempts 0
              (sim_polling [PollStatus "yellow" None; PollStatus "yellow" None;
                            PollStatus "green" (Some (HttpOk other_docs));
                            PollStatus "green" (Some (HttpOk expected_docs))])
              [PollStatus "yellow" None; PollStatus "yellow" None;
               PollStatus "green" (Some (HttpOk other_docs))]
              (PollStatus "green" (Some (HttpOk expected_docs))) [])
    as (w' & t & -> & Hp & Hs & Hc & Hrest).
  - reflexivity.
  - repeat constructor. simpl. by rewrite Hne.
  - simpl. by rewrite Z.eqb_refl.
  - unfold max_attempts. simpl. lia.
  - do 2 eexists. split; [reflexivity|].
    rewrite !health_polls_app, !sleeps_app, !health_checks_app, Hp, Hs, Hc.
    done.
Qed.

Lemma restore_index_succeeds_on_fourth_poll_witness :
  exists w' t,
    restore_index sim_api "snap-1" "logs-1" 100
      (sim_polling [PollStatus "yellow" None; PollStatus "yellow" None;
                    PollStatus "green" (Some (HttpOk 99));
                    PollStatus "green" (Some (HttpOk 100))])
    = (Ok true, w', t)
    /\ health_polls t = 4%nat
    /\ health_checks t = [(1, "yellow"); (2, "yellow"); (3, "green"); (4, "green")]
    /\ sleeps t = 3%nat
    /\ sim_polls w' = [].
Proof.
  apply (restore_index_succeeds_on_fourth_poll "snap-1" "logs-1" 100 99).
  discriminate.
Defined.

(** ** The run coordinator *)

Ltac effect_case :=
  match goal with
  | |- raises_only _ (match ?x with _ => _ end) => destruct x
  | |- silent (match ?x with _ => _ end) => destruct x
  | |- total _ => unfold total
  | |- raises_only _ (log _ _ _) => apply raises_only_emit
  | |- raises_only _ (sleep _) => apply raises_only_emit
  | |- raises_only _ (try_except _ is_request_exception _) =>
      apply total_try_request; [|intros ?]
  end.

Ltac effects_all := repeat first [effect_step | effect_case].

Lemma raise_for_status_ok {World B} (json : B) (w : World) :
  raise_for_status (HttpOk json) w = (Ok json, w, []).
Proof. done. Qed.

Lemma raise_for_status_error {World B} status_code (w : World) :
  (raise_for_status (HttpError status_code) : M World B) w
  = (Raise (RequestException true), w, []).
Proof. done. Qed.

(** Runs a computation through the checks of its answers as well. *)
Ltac run_checked :=
  repeat (progress (run; rewrite ?raise_for_status_ok, ?raise_for_status_error;
                    cbv beta iota)).

Section Coordinator.
Context {World : Type} (cl : api World).
Implicit Types (w : World) (index idx snapshot : string).

Lemma total_restore_index snapshot index expected_docs :
  total (restore_index cl snapshot index expected_docs).
Proof.
  intros w.
  destruct (restore_index_run cl snapshot index expected_docs w)
    as (restored & w' & t & -> & _). done.
Qed.

Lemma silent_restore_index snapshot index expected_docs :
  silent (restore_index cl snapshot index expected_docs).
Proof.
  intros w.
  destruct (restore_index_run cl snapshot index expected_docs w)
    as (restored & w' & t & -> & _ & Hsil). done.
Qed.

Lemma total_wait_until_green index bound remaining :
  total (wait_until_green cl index bound remaining).
Proof.
  induction remaining as [|remaining IH]; cbn [wait_until_green]; effects_all.
  exact IH.
Qed.

Lemma silent_wait_until_green index bound remaining :
  silent (wait_until_green cl index bound remaining).
Proof.
  induction remaining as [|remaining IH]; cbn [wait_until_green]; effects_all.
  exact IH.
Qed.

Lemma total_wait_for_green index bound : total (wait_for_green cl index bound).
Proof. apply total_wait_until_green. Qed.

Lemma silent_wait_for_green index bound : silent (wait_for_green cl index bound).
Proof. apply silent_wait_until_green. Qed.

(** The body of the loop of [main] raises nothing, whatever the clusters
    answer, and logs its index once. *)
Lemma process_index_run snapshot local_indices idx w :
  exists w' t,
    process_index cl snapshot local_indices idx w = (Ok tt, w', t)
    /\ processed t = [idx].
Proof.
  unfold process_index. rewrite bind_run, log_run. cbv beta iota.
  set (rest := mbind _ _).
  assert (total rest) as Htotal.
  { subst rest. effects_all;
      first [ apply total_get_index_doc_count | apply total_close_index
            | apply total_restore_index | apply total_open_index
            | apply total_wait_for_green ]. }
  assert (silent rest) as Hsilent.
  { subst rest. effects_all;
      first [ apply silent_get_index_doc_count | apply silent_close_index
            | apply silent_restore_index | apply silent_open_index
            | apply silent_wait_for_green ]. }
  destruct (total_run rest w Htotal) as ([] & w' & t & Hrun).
  specialize (Hsilent w). rewrite Hrun in *. simpl in Hsilent.
  exists w', ([Log INFO "Processing index: {idx}" [AStr idx]] ++ t).
  split; [done|]. by rewrite processed_app, Hsilent.
Qed.

(** The loop of [main] raises nothing and starts on every index of the
    batch, in order. *)
Lemma restore_batch_run snapshot local_indices batch w :
  exists w' t,
    restore_batch cl snapshot local_indices batch w = (Ok tt, w', t)
    /\ processed t = batch.
Proof.
  revert w. induction batch as [|idx batch IH]; intros w.
  - by exists w, [].
  - cbn [restore_batch]. rewrite bind_run.
    destruct (process_index_run snapshot local_indices idx w) as (w1 & t1 & -> & Hp1).
    destruct (IH w1) as (w2 & t2 & -> & Hp2).
    exists w2, (t1 ++ t2). split; [done|].
    by rewrite processed_app, Hp1, Hp2.
Qed.

(** C8. For an index of the batch that exists locally and whose close
    call fails (the request raises, or the answer is not OK): the body
    of the loop ends after the close call without a restore request,
    and the loop goes on with the next index of the batch. And no
    failure for one index ends the run: for every behaviour of the
    clusters the loop raises nothing and starts on every index of the
    batch. *)
Theorem close_failure_skips_index snapshot (local_indices : gmap string local_index)
    idx batch w expected_docs w1 (answer : option (response unit)) w2 :
  is_Some (local_indices !! idx) ->
  cl _ (GetCount ACTIVE_CLUSTER idx) w = (Some (HttpOk expected_docs), w1) ->
  cl _ (PostClose PASSIVE_CLUSTER idx) w1 = (answer, w2) ->
  answer <> Some (HttpOk tt) ->
  (exists t,
     process_index cl snapshot local_indices idx w = (Ok tt, w2, t)
     /\ restore_requests t = []
     /\ restore_actions t = [Http (PostClose PASSIVE_CLUSTER idx)]
     /\ restore_batch cl snapshot local_indices (idx :: batch) w
        = (let '(r, w3, t3) := restore_batch cl snapshot local_indices batch w2 in
           (r, w3, t ++ t3)))
  /\ (forall batch0 w0,
        exists w' t,
          restore_batch cl snapshot local_indices batch0 w0 = (Ok tt, w', t)
          /\ processed t = batch0).
Proof.
  intros Hlocal Hcount Hclose Hfail. split; [|by apply restore_batch_run].
  assert (exists t,
            process_index cl snapshot local_indices idx w = (Ok tt, w2, t)
            /\ restore_requests t = []
            /\ restore_actions t = [Http (PostClose PASSIVE_CLUSTER idx)])
    as (t & Hrun & Hr & Ha).
  { unfold process_index. run.
    unfold get_index_doc_count at 1, try_except. run. rewrite Hcount. run_checked.
    rewrite (bool_decide_eq_true_2 _ Hlocal).
    unfold close_index, try_except. run. rewrite Hclose.
    destruct answer as [[[]|code]|]; [done|..]; run_checked;
      cbn [is_request_exception]; run_checked; cbn [negb]; run_checked;
      eexists; (split; [reflexivity|done]). }
  exists t. split_and!; try done.
  cbn [restore_batch]. by rewrite bind_run, Hrun.
Qed.
End Coordinator.

Lemma close_failure_skips_index_witness :
  let local_indices : gmap string local_index := {["logs-1" := LocalIndex 7 10]} in
  let w := Sim (Some (HttpOk tt)) (Some (HttpOk [])) (Some (HttpOk []))
             (Some (HttpOk [])) (Some (HttpError 500)) (Some (HttpOk 100)) None [] in
  exists t,
    process_index sim_api "snap-1" local_indices "logs-1" w = (Ok tt, w, t)
    /\ restore_requests t = []
    /\ restore_actions t = [Http (PostClose PASSIVE_CLUSTER "logs-1")]
    /\ restore_batch sim_api "snap-1" local_indices ["logs-1"; "logs-2"] w
       = (let '(r, w3, t3) := restore_batch sim_api "snap-1" local_indices ["logs-2"] w in
          (r, w3, t ++ t3)).
Proof.
  intros local_indices w.
  apply (proj1 (close_failure_skips_index sim_api "snap-1" local_indices "logs-1"
                  ["logs-2"] w 100 w (Some (HttpError 500)) w
                  (ex_intro _ (LocalIndex 7 10) eq_refl) eq_refl eq_refl
                  ltac:(discriminate))).
Defined.

(** [get_local_indices] returns a dict on both of its paths, never [None]:
    the test of line 338 in [main] cannot hold. *)
Lemma get_local_indices_not_None {World} (cl : api World) w :
  (get_local_indices cl w).1.1 <> Ok None.
Proof.
  unfold get_local_indices, try_except. run.
  destruct (cl _ (CatIndices PASSIVE_CLUSTER) w) as [[[rows|code]|] w1];
    run_checked; cbn [is_request_exception]; run_checked; try done.
  destruct (local_indices_of_rows rows ∅ w1) as [[[indices|e] w2] t2];
    run_checked; [done|].
  destruct (is_request_exception e); [|done].
  run_checked. done.
Qed.

(** A failed request for the local indices gives the empty dict. *)
Lemma get_local_indices_failure {World} (cl : api World) w w1 answer :
  cl _ (CatIndices PASSIVE_CLUSTER) w = (answer, w1) ->
  (forall rows, answer <> Some (HttpOk rows)) ->
  exists t, get_local_indices cl w = (Ok (Some ∅), w1, t).
Proof.
  intros Hcat Hfail. unfold get_local_indices, try_except. run. rewrite Hcat.
  destruct answer as [[rows|code]|]; [by destruct (Hfail rows)|..];
    run_checked; cbn [is_request_exception]; run_checked; eauto.
Qed.

(** The three prerequisites that [main] does check: a run ends, with no
    further event, after a failed repository check, when there is no
    latest snapshot, and on an empty dict of snapshot indices. *)
Lemma main_aborts_without_repository {World} (cl : api World) fromtimestamp w w1 t1 :
  verify_repository cl PASSIVE_CLUSTER SNAPSHOT_REPO w = (Ok false, w1, t1) ->
  main cl fromtimestamp w
  = (Ok tt, w1,
     [Log INFO "Starting snapshot restore process" []] ++ t1
     ++ [Log ERROR "Repository not found on passive cluster ({PASSIVE_CLUSTER['url']}). Exiting."
           [AStr (url PASSIVE_CLUSTER)]]).
Proof. intros Hrepo. unfold main. run. rewrite Hrepo. run. cbn [negb]. by run. Qed.

Lemma main_aborts_without_snapshot {World} (cl : api World) fromtimestamp w w1 t1 w2 t2 snapshot :
  verify_repository cl PASSIVE_CLUSTER SNAPSHOT_REPO w = (Ok true, w1, t1) ->
  get_latest_snapshot cl fromtimestamp w1 = (Ok snapshot, w2, t2) ->
  snapshot = None \/ snapshot = Some "" ->
  main cl fromtimestamp w
  = (Ok tt, w2,
     [Log INFO "Starting snapshot restore process" []] ++ t1 ++ t2
     ++ [Log ERROR "Failed to get latest snapshot. Exiting." []]).
Proof.
  intros Hrepo Hsnap Hnone. unfold main. run. rewrite Hrepo. run. cbn [negb]. run.
  rewrite Hsnap. destruct Hnone as [-> | ->]; by run.
Qed.

Lemma main_aborts_without_snapshot_indices {World} (cl : api World) fromtimestamp
    w w1 t1 w2 t2 c snapshot w3 t3 :
  verify_repository cl PASSIVE_CLUSTER SNAPSHOT_REPO w = (Ok true, w1, t1) ->
  get_latest_snapshot cl fromtimestamp w1 = (Ok (Some (String c snapshot)), w2, t2) ->
  get_snapshot_indices cl (String c snapshot) w2 = (Ok [], w3, t3) ->
  main cl fromtimestamp w
  = (Ok tt, w3,
     [Log INFO "Starting snapshot restore process" []] ++ t1 ++ t2 ++ t3
     ++ [Log ERROR "Failed to get snapshot indices. Exiting." []]).
Proof.
  intros Hrepo Hsnap Hind. unfold main. run. rewrite Hrepo. run. cbn [negb]. run.
  rewrite Hsnap. run. rewrite Hind. by run.
Qed.

(** C5, on the code. On a cluster pair where the repository is reachable,
    the latest snapshot holds the index [logs-1] and the request for the
    local indices fails, [get_local_indices] returns the empty dict, the
    run goes on to the selection and sends a restore request for
    [logs-1]: a failed or empty local fetch does not abort the run. *)
Theorem main_restores_after_failed_local_fetch :
  (exists t,
     get_local_indices sim_api sim_local_fetch_fails
     = (Ok (Some ∅), sim_local_fetch_fails, t))
  /\ exists w' t,
       main sim_api sim_fromtimestamp sim_local_fetch_fails = (Ok tt, w', t)
       /\ restore_requests t = ["logs-1"]
       /\ restore_actions t
          = [Http (PostRestore PASSIVE_CLUSTER SNAPSHOT_REPO "snap-1" "logs-1" false true);
             Http (PostOpen PASSIVE_CLUSTER "logs-1")].
Proof.
  split.
  - eexists. vm_compute. reflexivity.
  - do 2 eexists. split; [vm_compute; reflexivity|]. split; vm_compute; reflexivity.
Qed.

(** * Further properties *)

(** ** Selection *)

Lemma to_restore_sublist items local_indices :
  to_restore items local_indices `sublist_of` items.
Proof.
  induction items as [|[idx snap_size] items IH]; simpl; [done|].
  destruct (is_system_index idx); [by apply sublist_cons|].
  destruct (needs_restore local_indices idx snap_size);
    [by apply sublist_skip|by apply sublist_cons].
Qed.

Lemma Zsum_perm l1 l2 : l1 ≡ₚ l2 -> Zsum l1 = Zsum l2.
Proof.
  induction 1 as [|x l1 l2 _ IH|x y l|l1 l2 l3 _ IH1 _ IH2];
    rewrite ?Zsum_cons; lia.
Qed.

Lemma Zsum_nonneg l : Forall (fun x => 0 <= x) l -> 0 <= Zsum l.
Proof. induction 1 as [|x l Hx _ IH]; rewrite ?Zsum_cons; [done|lia]. Qed.

(** A candidate larger than the ceiling blocks the whole batch: it sorts
    in front of (or among) the candidates that would fit, the loop
    breaks on the first entry, and nothing is selected. *)
Theorem oversize_candidate_blocks_batch
    (snapshot_indices : list (string * Z)) (local_indices : gmap string local_index)
    (idx : string) (snap_size : Z) :
  (idx, snap_size) ∈ snapshot_indices ->
  is_system_index idx = false ->
  needs_restore local_indices idx snap_size = true ->
  snap_size > MAX_RESTORE_BYTES ->
  pick_indices_to_restore snapshot_indices local_indices = [].
Proof.
  intros Hin Hsys Hneed Hbig.
  assert ((idx, snap_size) ∈ sort_largest_first (to_restore snapshot_indices local_indices))
    as Hsorted by (rewrite sort_largest_first_perm; by apply elem_of_to_restore).
  pose proof (sort_largest_first_descending (to_restore snapshot_indices local_indices))
    as Hdesc.
  unfold pick_indices_to_restore.
  destruct (sort_largest_first (to_restore snapshot_indices local_indices))
    as [|[idx0 size0] sorted]; [done|].
  cbn [fill_batch].
  assert (size0 >= snap_size) as Hge.
  { apply StronglySorted_inv in Hdesc as [_ Hall].
    apply elem_of_cons in Hsorted as [[= <- <-]|Hsorted]; [lia|].
    rewrite Forall_forall in Hall. by apply (Hall (idx, snap_size)). }
  destruct (Z.gtb_spec (0 + size0) MAX_RESTORE_BYTES); [done|lia].
Qed.

Lemma oversize_candidate_blocks_batch_witness :
  pick_indices_to_restore
    [("logs-small", 10); ("logs-huge", 501 * 10 ^ 9); ("logs-mid", 2000)] ∅
  = [].
Proof.
  apply (oversize_candidate_blocks_batch _ ∅ "logs-huge" (501 * 10 ^ 9));
    [set_solver|reflexivity|reflexivity|reflexivity].
Defined.

(** When the candidates, none of negative size, fit under the ceiling
    together, all of them are selected: the batch is the candidates in
    descending order of size. *)
Theorem pick_indices_to_restore_all_fit
    (snapshot_indices : list (string * Z)) (local_indices : gmap string local_index) :
  Forall (fun x => 0 <= x.2) (to_restore snapshot_indices local_indices) ->
  Zsum (to_restore snapshot_indices local_indices).*2 <= MAX_RESTORE_BYTES ->
  pick_indices_to_restore snapshot_indices local_indices
  = (sort_largest_first (to_restore snapshot_indices local_indices)).*1
  /\ pick_indices_to_restore snapshot_indices local_indices
     ≡ₚ (to_restore snapshot_indices local_indices).*1.
Proof.
  intros Hnonneg Hfit.
  destruct (pick_indices_to_restore_prefix snapshot_indices local_indices)
    as (picked & rest & Hsplit & Hbatch & _ & Hrest).
  assert (rest = []) as ->.
  { destruct rest as [|[idx size] rest]; [done|]. exfalso.
    assert (Zsum (picked ++ (idx, size) :: rest).*2
            = Zsum (to_restore snapshot_indices local_indices).*2) as Hsum.
    { apply Zsum_perm. rewrite <- Hsplit. by rewrite sort_largest_first_perm. }
    assert (Forall (fun x => 0 <= x.2) (picked ++ (idx, size) :: rest)) as Hall.
    { rewrite <- Hsplit, sort_largest_first_perm. done. }
    rewrite fmap_app, Zsum_app, fmap_cons, Zsum_cons in Hsum.
    apply Forall_app in Hall as [_ Hall]. apply Forall_cons in Hall as [_ Hall].
    assert (0 <= Zsum rest.*2) by (apply Zsum_nonneg; by apply Forall_fmap).
    simpl in *. lia. }
  rewrite app_nil_r in Hsplit. subst picked.
  split; [done|]. by rewrite Hbatch, sort_largest_first_perm.
Qed.

Lemma pick_indices_to_restore_all_fit_witness :
  pick_indices_to_restore [("a", 10); ("b", 30); (".kibana_1", 7); ("c", 20)] ∅
  = ["b"; "c"; "a"].
Proof.
  refine (proj1 (pick_indices_to_restore_all_fit
                   [("a", 10); ("b", 30); (".kibana_1", 7); ("c", 20)] ∅ _ _)).
  - repeat constructor; done.
  - by vm_compute.
Defined.

(** When every index of the snapshot is a system index or is locally at
    least as large as in the snapshot, nothing is selected. *)
Theorem pick_indices_to_restore_up_to_date
    (snapshot_indices : list (string * Z)) (local_indices : gmap string local_index) :
  (forall idx snap_size,
     (idx, snap_size) ∈ snapshot_indices ->
     is_system_index idx = true
     \/ exists local, local_indices !! idx = Some local /\ snap_size <= local_size local) ->
  pick_indices_to_restore snapshot_indices local_indices = [].
Proof.
  intros Hdone.
  assert (to_restore snapshot_indices local_indices = []) as Hnone.
  { destruct (to_restore snapshot_indices local_indices) as [|[idx size] l] eqn:Heq;
      [done|]. exfalso.
    assert ((idx, size) ∈ to_restore snapshot_indices local_indices) as Hin
      by (rewrite Heq; left).
    apply elem_of_to_restore in Hin as (Hin & Hsys & Hneed).
    destruct (Hdone idx size Hin) as [Hs|(local & Hl & Hle)]; [congruence|].
    unfold needs_restore in Hneed. rewrite Hl in Hneed.
    apply Z.gtb_gt in Hneed. lia. }
  unfold pick_indices_to_restore. by rewrite Hnone.
Qed.

Lemma pick_indices_to_restore_up_to_date_witness :
  pick_indices_to_restore [("logs-1", 10); (".security-7", 99)]
    {["logs-1" := LocalIndex 3 10]} = [].
Proof.
  apply pick_indices_to_restore_up_to_date. intros idx snap_size Hin.
  apply elem_of_cons in Hin as [[= -> ->]|Hin].
  - right. exists (LocalIndex 3 10). split; [reflexivity|]. simpl. lia.
  - apply elem_of_cons in Hin as [[= -> ->]|Hin]; [by left|].
    by apply elem_of_nil in Hin.
Defined.

(** No index is selected twice. *)
Theorem pick_indices_to_restore_NoDup
    (snapshot_indices : list (string * Z)) (local_indices : gmap string local_index) :
  NoDup snapshot_indices.*1 ->
  NoDup (pick_indices_to_restore snapshot_indices local_indices).
Proof.
  intros Hnd.
  destruct (pick_indices_to_restore_prefix snapshot_indices local_indices)
    as (picked & rest & Hsplit & -> & _).
  assert (NoDup (picked ++ rest).*1) as Hall.
  { rewrite <- Hsplit, sort_largest_first_perm.
    eapply sublist_NoDup; [exact Hnd|].
    apply fmap_sublist, to_restore_sublist. }
  rewrite fmap_app in Hall. by apply NoDup_app in Hall as [? _].
Qed.

Lemma pick_indices_to_restore_NoDup_witness :
  NoDup (pick_indices_to_restore [("a", 10); ("b", 30); ("c", 20)] ∅).
Proof.
  apply pick_indices_to_restore_NoDup.
  apply (bool_decide_unpack _). vm_compute. exact I.
Defined.

(** The sort of line 162 is stable: candidates of the same size stay in
    the order in which the snapshot dict lists them. *)
Theorem sort_largest_first_stable (size : Z) (l : list (string * Z)) :
  List.filter (fun x => x.2 =? size) (sort_largest_first l)
  = List.filter (fun x => x.2 =? size) l.
Proof.
  assert (forall l' : list (string * Z),
            List.filter (fun x => x.2 =? size) l'
            = List.filter (fun x => - x.2 =? - size) l') as Hext.
  { intros l'. apply List.filter_ext. intros [idx s]. simpl.
    destruct (Z.eqb_spec s size), (Z.eqb_spec (- s) (- size)); done || lia. }
  rewrite !Hext. apply (sort_by_key_stable (fun x => - x.2)).
Qed.

Lemma prefix_dot (c : ascii) (name pre : string) :
  c <> "."%char -> String.prefix (String "." pre) (String c name) = false.
Proof.
  intros Hc. cbn [String.prefix].
  destruct (ascii_dec "." c) as [Heq|_]; [by destruct Hc|done].
Qed.

(** Every prefix of [SYSTEM_INDICES] starts with a dot: an index whose
    name does not is never skipped as a system index. *)
Theorem is_system_index_needs_dot (c : ascii) (name : string) :
  c <> "."%char -> is_system_index (String c name) = false.
Proof.
  intros Hc. unfold is_system_index, SYSTEM_INDICES, startswith.
  cbn [existsb]. by rewrite !prefix_dot.
Qed.

Lemma is_system_index_needs_dot_witness : is_system_index "kibana-logs" = false.
Proof. apply (is_system_index_needs_dot "k" "ibana-logs"). discriminate. Defined.

(** ** What a run sends *)

Lemma requests_app t1 t2 : requests (t1 ++ t2) = requests t1 ++ requests t2.
Proof.
  induction t1 as [|e t1 IH]; [done|].
  destruct e; simpl; by rewrite ?IH.
Qed.

Lemma green_waits_app t1 t2 : green_waits (t1 ++ t2) = (green_waits t1 + green_waits t2)%nat.
Proof.
  induction t1 as [|e t1 IH]; [done|].
  destruct e as [B r| |]; [destruct r|..]; simpl; by rewrite ?IH.
Qed.

Lemma read_only_no_actions t : Forall read_only t -> restore_actions t = [].
Proof.
  induction 1 as [|e t He _ IH]; [done|].
  destruct e as [B r| |]; [destruct r|..]; simpl in *; done.
Qed.

Lemma not_restore_request_no_requests t :
  Forall not_restore_request t -> restore_requests t = [].
Proof.
  induction 1 as [|e t He _ IH]; [done|].
  destruct e as [B r| |]; [destruct r|..]; simpl in *; done.
Qed.

Lemma restore_requests_actions t : restore_requests (restore_actions t) = restore_requests t.
Proof.
  induction t as [|e t IH]; [done|].
  destruct e as [B r| |]; [destruct r|..]; simpl; by rewrite ?IH.
Qed.

Section Events.
Context {World : Type}.
Implicit Types P : event -> Prop.

Lemma events_all_weaken {A} P Q (m : M World A) :
  (forall e, P e -> Q e) -> events_all P m -> events_all Q m.
Proof. intros HPQ Hm w. eapply Forall_impl; [apply Hm|done]. Qed.

Lemma events_all_ret {A} P (a : A) : events_all P (mret a : M World A).
Proof. intros w. constructor. Qed.

Lemma events_all_lift {A} P (r : result A) : events_all P (lift r : M World A).
Proof. intros w. constructor. Qed.

Lemma events_all_emit P e : P e -> events_all P (emit e : M World unit).
Proof. intros He w. by repeat constructor. Qed.

Lemma events_all_send P (cl : api World) {B} (r : request B) :
  P (Http r) -> events_all P (send cl r).
Proof.
  intros Hr w. unfold send. destruct (cl B r w) as [[resp|] w']; by repeat constructor.
Qed.

Lemma events_all_raise_for_status P {B} (r : response B) :
  events_all P (raise_for_status r : M World B).
Proof. intros w. destruct r; constructor. Qed.

Lemma events_all_bind {A B} P (m : M World A) (k : A -> M World B) :
  events_all P m -> (forall a, events_all P (k a)) -> events_all P (m ≫= k).
Proof.
  intros Hm Hk w. rewrite bind_run. specialize (Hm w).
  destruct (m w) as [[[a|e] w1] t1]; [|done].
  specialize (Hk a w1). destruct (k a w1) as [[r w2] t2].
  simpl in *. by apply Forall_app.
Qed.

(** The same, when the continuation is needed only on the values that
    the first computation can return. *)
Lemma events_all_bind_value {A B} P (Q : A -> Prop) (m : M World A) (k : A -> M World B) :
  events_all P m ->
  (forall w a w' t, m w = (Ok a, w', t) -> Q a) ->
  (forall a, Q a -> events_all P (k a)) ->
  events_all P (m ≫= k).
Proof.
  intros Hm HQ Hk w. rewrite bind_run. specialize (Hm w).
  destruct (m w) as [[[a|e] w1] t1] eqn:Hrun; [|done].
  specialize (Hk a (HQ _ _ _ _ Hrun) w1). destruct (k a w1) as [[r w2] t2].
  simpl in *. by apply Forall_app.
Qed.

Lemma events_all_try {A} P (body : M World A) catches handler :
  events_all P body -> (forall e, events_all P (handler e)) ->
  events_all P (try_except body catches handler).
Proof.
  intros Hbody Hhandler w. unfold try_except. specialize (Hbody w).
  destruct (body w) as [[[a|e] w1] t1]; [done|].
  destruct (catches e); [|done].
  specialize (Hhandler e w1). destruct (handler e w1) as [[r w2] t2].
  simpl in *. by apply Forall_app.
Qed.

Lemma raises_only_lift {A} allowed (r : result A) :
  (forall e, r = Raise e -> allowed e = true) ->
  raises_only allowed (lift r : M World A).
Proof. intros Hr w. unfold lift. simpl. destruct r; [done|]. by apply Hr. Qed.
End Events.

(** One step of a proof that all events of a computation satisfy a
    predicate; what is left are the computations it calls and the
    predicate on its own requests. *)
Ltac events_step :=
  match goal with
  | |- events_all _ (mret _) => apply events_all_ret
  | |- events_all _ (lift _) => apply events_all_lift
  | |- events_all _ (raise_for_status _) => apply events_all_raise_for_status
  | |- events_all _ (log _ _ _) => apply events_all_emit; first [exact I | solve [auto]]
  | |- events_all _ (sleep _) =>
      apply events_all_emit; first [exact I | reflexivity | solve [auto]]
  | |- events_all _ (send _ _) => apply events_all_send
  | |- events_all _ (mbind _ _) => apply events_all_bind; [|intros ?]
  | |- events_all _ (try_except _ _ _) => apply events_all_try; [|intros ?]
  | |- events_all _ (match ?x with _ => _ end) => destruct x
  end.

Ltac events := repeat events_step.


(** ** The restore driver, further *)

Section DriverEvents.
Context {World : Type} (cl : api World).
Implicit Types (w : World) (snapshot : string).

Lemma get_index_doc_count_events P index c :
  P (Http (GetCount c index)) ->
  (forall lvl template args, P (Log lvl template args)) ->
  events_all P (get_index_doc_count cl index c).
Proof.
  intros Hreq Hlog. unfold get_index_doc_count.
  apply events_all_try; [|intros e].
  - apply events_all_bind; [by apply events_all_send|intros r].
    apply events_all_bind; [apply events_all_raise_for_status|intros count].
    apply events_all_ret.
  - apply events_all_bind; [apply events_all_emit, Hlog|intros _].
    apply events_all_ret.
Qed.

Section Polling.
Context (P : event -> Prop) (index : string).
Hypothesis Hhealth : P (Http (GetHealth PASSIVE_CLUSTER index)).
Hypothesis Hcount : P (Http (GetCount PASSIVE_CLUSTER index)).
Hypothesis Hsleep : P (Sleep 10).
Hypothesis Hlog : forall lvl template args, P (Log lvl template args).

Lemma verify_restore_success_events expected_docs :
  events_all P (verify_restore_success cl index expected_docs).
Proof.
  unfold verify_restore_success.
  apply events_all_try; [|intros e; events].
  apply events_all_bind; [by apply get_index_doc_count_events|intros actual].
  events.
Qed.

Lemma poll_health_events expected_docs attempt :
  events_all P (poll_health cl index expected_docs attempt).
Proof.
  unfold poll_health.
  apply events_all_try; [|intros e; events].
  apply events_all_bind; [by apply events_all_send|intros health_response].
  apply events_all_bind; [|intros restored; events].
  destruct health_response as [status|code]; [|events].
  apply events_all_bind; [events|intros _].
  destruct (String.eqb status "green"); [|events].
  apply events_all_bind; [apply verify_restore_success_events|intros verified].
  events.
Qed.

Lemma poll_until_restored_events expected_docs remaining attempt :
  events_all P (poll_until_restored cl index expected_docs remaining attempt).
Proof.
  revert attempt. induction remaining as [|remaining IH]; intros attempt;
    cbn [poll_until_restored].
  - events.
  - apply events_all_bind; [apply poll_health_events|intros restored].
    destruct restored; [events|apply IH].
Qed.
End Polling.

Lemma restore_index_trace snapshot index expected_docs w :
  Forall (restore_event snapshot index)
    (restore_index cl snapshot index expected_docs w).2.
Proof.
  revert w. change (events_all (restore_event snapshot index)
                      (restore_index cl snapshot index expected_docs)).
  unfold restore_index.
  apply events_all_try; [|intros e; events].
  apply events_all_bind; [by apply events_all_send|intros verify_response].
  destruct (negb (ok verify_response)); [events|].
  apply events_all_bind; [events|intros _].
  apply events_all_bind; [by apply events_all_send|intros r].
  destruct (negb (ok r)); [events|].
  apply events_all_bind; [events|intros _].
  by apply poll_until_restored_events.
Qed.

(** Every event of [restore_index] is one of the restore of its index:
    it sends requests to the passive cluster only, about its snapshot
    and its index only, never a close or an open request, and a restore
    request only for its own index, without the global state and with
    the aliases; its sleeps are of ten seconds. *)
Theorem restore_index_events snapshot index expected_docs w :
  Forall (restore_event snapshot index)
    (restore_index cl snapshot index expected_docs w).2.
Proof. apply restore_index_trace. Qed.

(** [restore_index] gives up before the restore request when the
    snapshot is not visible on the passive cluster, and before the first
    health poll when the restore request is not accepted; in both cases
    it returns [False]. *)
Theorem restore_index_stops_early snapshot index expected_docs w :
  (forall answer w1,
     cl _ (GetSnapshot PASSIVE_CLUSTER SNAPSHOT_REPO snapshot) w = (answer, w1) ->
     answer <> Some (HttpOk tt) ->
     exists t,
       restore_index cl snapshot index expected_docs w = (Ok false, w1, t)
       /\ requests t = [Http (GetSnapshot PASSIVE_CLUSTER SNAPSHOT_REPO snapshot)])
  /\ (forall w1 answer w2,
        cl _ (GetSnapshot PASSIVE_CLUSTER SNAPSHOT_REPO snapshot) w
        = (Some (HttpOk tt), w1) ->
        cl _ (PostRestore PASSIVE_CLUSTER SNAPSHOT_REPO snapshot index false true) w1
        = (answer, w2) ->
        answer <> Some (HttpOk tt) ->
        exists t,
          restore_index cl snapshot index expected_docs w = (Ok false, w2, t)
          /\ requests t
             = [Http (GetSnapshot PASSIVE_CLUSTER SNAPSHOT_REPO snapshot);
                Http (PostRestore PASSIVE_CLUSTER SNAPSHOT_REPO snapshot index false true)]).
Proof.
  split.
  - intros answer w1 Hsnap Hfail. unfold restore_index, try_except. run.
    rewrite Hsnap. destruct answer as [[[]|code]|]; [done|..];
      run; cbn [ok negb is_request_exception]; run;
      eexists; (split; [reflexivity|done]).
  - intros w1 answer w2 Hsnap Hrestore Hfail. unfold restore_index, try_except. run.
    rewrite Hsnap. run. cbn [ok negb]. run. rewrite Hrestore.
    destruct answer as [[[]|code]|]; [done|..];
      run; cbn [ok negb is_request_exception]; run;
      eexists; (split; [reflexivity|done]).
Qed.
End DriverEvents.

Lemma restore_index_stops_early_witness :
  exists t,
    restore_index
      (fun B r w =>
         match r in request B return option (response B) * sim with
         | GetSnapshot _ _ _ => (Some (HttpError 404), w)
         | r' => sim_api _ r' w
         end)
      "snap-1" "logs-1" 100 (sim_polling [])
    = (Ok false, sim_polling [], t)
    /\ requests t = [Http (GetSnapshot PASSIVE_CLUSTER SNAPSHOT_REPO "snap-1")].
Proof.
  eapply (proj1 (restore_index_stops_early _ "snap-1" "logs-1" 100 (sim_polling [])));
    [reflexivity|discriminate].
Defined.

(** ** The restore driver on any script of health polls *)

Lemma sim_poll_until_restored_gives_up index expected_docs remaining attempt (w : sim) :
  Forall (fun p => poll_succeeds expected_docs p = false) (take remaining (sim_polls w)) ->
  exists w' t,
    poll_until_restored sim_api index expected_docs remaining attempt w
    = (Ok false, w', t)
    /\ health_polls t = remaining
    /\ sleeps t = remaining.
Proof.
  revert attempt w. induction remaining as [|remaining IH]; intros attempt w Hnone.
  - do 2 eexists. split; [reflexivity|done].
  - destruct (sim_polls w) as [|p polls] eqn:Hpolls.
    + destruct (poll_health_run sim_api index expected_docs attempt w)
        as (restored & w1 & t1 & Hpoll & Hp & Hs & _ & _ & Hres & Hw1 & _).
      cbn [sim_api] in Hres, Hw1. rewrite Hpolls in Hres, Hw1. subst restored w1.
      rewrite (poll_until_restored_continue _ _ _ _ _ _ _ _ Hpoll).
      destruct (IH (S attempt) w) as (w2 & t2 & -> & Hp2 & Hs2).
      { rewrite Hpolls. by rewrite take_nil. }
      do 2 eexists. split; [reflexivity|].
      rewrite health_polls_app, sleeps_app. lia.
    + cbn [take] in Hnone. apply Forall_cons in Hnone as [Hfail Hnone].
      destruct (sim_poll_health index expected_docs attempt w p polls Hpolls)
        as (w1 & t1 & Hpoll & Hp & Hs & Hpolls1 & _).
      rewrite Hfail in Hpoll, Hs.
      rewrite (poll_until_restored_continue _ _ _ _ _ _ _ _ Hpoll).
      destruct (IH (S attempt) w1) as (w2 & t2 & -> & Hp2 & Hs2); [by rewrite Hpolls1|].
      do 2 eexists. split; [reflexivity|].
      rewrite health_polls_app, sleeps_app. lia.
Qed.

Lemma first_success expected_docs (polls : list poll) :
  existsb (poll_succeeds expected_docs) polls = true ->
  exists failed p rest,
    polls = failed ++ p :: rest
    /\ Forall (fun p => poll_succeeds expected_docs p = false) failed
    /\ poll_succeeds expected_docs p = true.
Proof.
  induction polls as [|q polls IH]; [done|]. simpl.
  destruct (poll_succeeds expected_docs q) eqn:Hq.
  - intros _. by exists [], q, polls.
  - intros (failed & p & rest & -> & Hfailed & Hp)%IH.
    exists (q :: failed), p, rest. split_and!; [done| |done]. by constructor.
Qed.

(** On any script of health polls, after an accepted restore request,
    [restore_index] returns [True] exactly when one of the first 30
    polls is green with the expected document count; it then stops at
    the first such poll, and otherwise sends 30 polls. Polls beyond the
    thirtieth are never looked at. *)
Theorem restore_index_on_script (snapshot index : string) (expected_docs : Z)
    (polls : list poll) :
  exists w' t,
    restore_index sim_api snapshot index expected_docs (sim_polling polls)
    = (Ok (existsb (poll_succeeds expected_docs) (take 30 polls)), w', t)
    /\ (existsb (poll_succeeds expected_docs) (take 30 polls) = false ->
        health_polls t = 30%nat /\ sleeps t = 30%nat)
    /\ (forall failed p rest,
          take 30 polls = failed ++ p :: rest ->
          Forall (fun p => poll_succeeds expected_docs p = false) failed ->
          poll_succeeds expected_docs p = true ->
          health_polls t = S (length failed) /\ sleeps t = length failed).
Proof.
  unfold restore_index, try_except. run.
  rewrite sim_api_get_snapshot. cbn [ok negb]. run.
  rewrite sim_api_post_restore. cbn [ok negb]. run.
  destruct (existsb (poll_succeeds expected_docs) (take 30 polls)) eqn:Hex.
  - destruct (first_success _ _ Hex) as (failed & p & rest & Htake & Hfailed & Hp).
    assert (length failed < 30)%nat as Hlt.
    { apply (f_equal length) in Htake.
      rewrite length_take, length_app, length_cons in Htake.
      pose proof (Nat.le_min_l 30 (length polls)). lia. }
    destruct (sim_poll_until_restored_succeeds index expected_docs max_attempts 0
                (sim_polling polls) failed p (rest ++ drop 30 polls))
      as (w' & t & -> & Hpolls & Hsleeps & _); [|done|done|done|].
    { cbn [sim_polling sim_polls].
      rewrite <- (take_drop 30 polls) at 1. rewrite Htake.
      by rewrite <- (assoc_L (++)). }
    do 2 eexists. split; [reflexivity|]. split; [done|].
    intros failed' p' rest' Htake' Hfailed' Hp'.
    assert (failed' = failed) as ->.
    { rewrite Htake in Htake'. clear -Htake' Hfailed Hfailed' Hp Hp'.
      revert failed' Htake' Hfailed'.
      induction failed as [|q failed IH]; intros [|q' failed'] Heq Hfailed';
        simplify_eq/=; try done.
      - apply Forall_cons in Hfailed' as [? _]. congruence.
      - apply Forall_cons in Hfailed as [? _]. congruence.
      - apply Forall_cons in Hfailed as [_ ?]. apply Forall_cons in Hfailed' as [_ ?].
        f_equal. by apply IH. }
    rewrite !health_polls_app, !sleeps_app, Hpolls, Hsleeps. done.
  - destruct (sim_poll_until_restored_gives_up index expected_docs max_attempts 0
                (sim_polling polls)) as (w' & t & -> & Hpolls & Hsleeps).
    { apply Forall_forall. intros p Hin%list_elem_of_In.
      destruct (poll_succeeds expected_docs p) eqn:Hp; [|done].
      assert (existsb (poll_succeeds expected_docs) (take 30 polls) = true)
        as Hyes by (apply existsb_exists; eauto).
      congruence. }
    do 2 eexists. split; [reflexivity|]. split.
    + intros _. rewrite !health_polls_app, !sleeps_app, Hpolls, Hsleeps. done.
    + intros failed p rest Htake Hfailed Hp.
      assert (existsb (poll_succeeds expected_docs) (take 30 polls) = true) as Hyes.
      { apply existsb_exists. exists p. split; [|done].
        rewrite Htake. apply in_or_app. right. by left. }
      congruence.
Qed.

Lemma restore_index_on_script_witness :
  exists w' t,
    restore_index sim_api "snap-1" "logs-1" 100
      (sim_polling [PollRaises; PollStatus "green" (Some (HttpOk 100))])
    = (Ok true, w', t)
    /\ health_polls t = 2%nat /\ sleeps t = 1%nat.
Proof.
  destruct (restore_index_on_script "snap-1" "logs-1" 100
              [PollRaises; PollStatus "green" (Some (HttpOk 100))])
    as (w' & t & Hrun & _ & Hfirst).
  exists w', t. split; [exact Hrun|].
  apply (Hfirst [PollRaises] (PollStatus "green" (Some (HttpOk 100))) []);
    [reflexivity|by repeat constructor|reflexivity].
Defined.

(** ** One index in the loop of [main] *)

Section IndexActions.
Context {World : Type} (cl : api World).
Implicit Types (w : World) (index idx snapshot : string).

(** [close_index] sends its one request and tells whether it was answered
    with an OK status. *)
Lemma close_index_run index w :
  exists t,
    close_index cl index w
    = (Ok match (cl _ (PostClose PASSIVE_CLUSTER index) w).1 with
          | Some (HttpOk _) => true
          | _ => false
          end,
       (cl _ (PostClose PASSIVE_CLUSTER index) w).2, t)
    /\ requests t = [Http (PostClose PASSIVE_CLUSTER index)].
Proof.
  unfold close_index, try_except. run.
  destruct (cl _ (PostClose PASSIVE_CLUSTER index) w) as [[[[]|code]|] w1];
    run_checked; cbn [is_request_exception]; run_checked;
    eexists; (split; [reflexivity|done]).
Qed.

(** So does [open_index]. *)
Lemma open_index_run index w :
  exists t,
    open_index cl index w
    = (Ok match (cl _ (PostOpen PASSIVE_CLUSTER index) w).1 with
          | Some (HttpOk _) => true
          | _ => false
          end,
       (cl _ (PostOpen PASSIVE_CLUSTER index) w).2, t)
    /\ requests t = [Http (PostOpen PASSIVE_CLUSTER index)].
Proof.
  unfold open_index, try_except. run.
  destruct (cl _ (PostOpen PASSIVE_CLUSTER index) w) as [[[[]|code]|] w1];
    run_checked; cbn [is_request_exception]; run_checked;
    eexists; (split; [reflexivity|done]).
Qed.

Lemma restore_actions_requests t : restore_actions (requests t) = restore_actions t.
Proof.
  induction t as [|e t IH]; [done|].
  destruct e as [B r| |]; [destruct r|..]; simpl; by rewrite ?IH.
Qed.

Lemma wait_until_green_waits index bound remaining w :
  exists green w' t,
    wait_until_green cl index bound remaining w = (Ok green, w', t)
    /\ (green_waits t <= remaining)%nat
    /\ (green = false -> green_waits t = remaining)
    /\ sleeps t = (if green then green_waits t - 1 else green_waits t)%nat
    /\ (green = true -> (1 <= green_waits t)%nat)
    /\ requests t
       = replicate (green_waits t) (Http (GetHealthWaitGreen PASSIVE_CLUSTER index)).
Proof.
  revert w. induction remaining as [|remaining IH]; intros w.
  - cbn [wait_until_green]. run. do 3 eexists. split; [reflexivity|]. done.
  - cbn [wait_until_green]. unfold try_except. run.
    destruct (cl _ (GetHealthWaitGreen PASSIVE_CLUSTER index) w)
      as [[[status|code]|] w1]; run_checked; cbn [is_request_exception]; run_checked.
    + destruct (String.eqb status "green"); run_checked.
      * do 3 eexists. split; [reflexivity|]. simpl. split_and!; try done; lia.
      * destruct (IH w1) as (green & w2 & t2 & -> & Hle & Hall & Hs & Hone & Hreq).
        do 3 eexists. split; [reflexivity|]. simpl.
        rewrite Hs, Hreq. split_and!; try done; try lia.
        -- intros ->. by rewrite (Hall eq_refl).
        -- destruct green; [specialize (Hone eq_refl)|]; lia.
    + destruct (IH w1) as (green & w2 & t2 & -> & Hle & Hall & Hs & Hone & Hreq).
      do 3 eexists. split; [reflexivity|]. simpl.
      rewrite Hs, Hreq. split_and!; try done; try lia.
      * intros ->. by rewrite (Hall eq_refl).
      * destruct green; [specialize (Hone eq_refl)|]; lia.
    + destruct (IH w1) as (green & w2 & t2 & -> & Hle & Hall & Hs & Hone & Hreq).
      do 3 eexists. split; [reflexivity|]. simpl.
      rewrite Hs, Hreq. split_and!; try done; try lia.
      * intros ->. by rewrite (Hall eq_refl).
      * destruct green; [specialize (Hone eq_refl)|]; lia.
Qed.

Lemma wait_for_green_waits index bound w :
  exists green w' t,
    wait_for_green cl index bound w = (Ok green, w', t)
    /\ (green_waits t <= bound)%nat
    /\ (green = false -> green_waits t = bound)
    /\ sleeps t = (if green then green_waits t - 1 else green_waits t)%nat
    /\ (green = true -> (1 <= green_waits t)%nat)
    /\ requests t
       = replicate (green_waits t) (Http (GetHealthWaitGreen PASSIVE_CLUSTER index)).
Proof. apply wait_until_green_waits. Qed.

(** [wait_for_green] raises nothing and sends at most [max_attempts]
    green waits for its index and nothing else: all of them when it
    gives up, with a sleep after each; it returns [True] on the first
    wait that is answered green, without a sleep after it. *)
Theorem wait_for_green_run index (max_attempts : nat) w :
  exists green w' t,
    wait_for_green cl index max_attempts w = (Ok green, w', t)
    /\ (green_waits t <= max_attempts)%nat
    /\ (green = false -> green_waits t = max_attempts)
    /\ sleeps t = (if green then green_waits t - 1 else green_waits t)%nat
    /\ (green = true -> (1 <= green_waits t)%nat)
    /\ requests t
       = replicate (green_waits t) (Http (GetHealthWaitGreen PASSIVE_CLUSTER index)).
Proof. apply wait_for_green_waits. Qed.

Lemma replicate_read_only n index :
  restore_actions (replicate n (Http (GetHealthWaitGreen PASSIVE_CLUSTER index))) = [].
Proof. induction n; [done|]. simpl. done. Qed.

(** [restore_index] sends its restore request at most once, and it has
    sent it when it returns [True]. *)
Lemma restore_index_actions snapshot index expected_docs w :
  exists restored w' t,
    restore_index cl snapshot index expected_docs w = (Ok restored, w', t)
    /\ (restore_actions t = [] /\ restored = false
        \/ restore_actions t
           = [Http (PostRestore PASSIVE_CLUSTER SNAPSHOT_REPO snapshot index false true)]).
Proof.
  unfold restore_index, try_except. run.
  destruct (cl _ (GetSnapshot PASSIVE_CLUSTER SNAPSHOT_REPO snapshot) w)
    as [[[[]|code]|] w1]; cbn [ok negb is_request_exception]; run.
  - destruct (cl _ (PostRestore PASSIVE_CLUSTER SNAPSHOT_REPO snapshot index false true) w1)
      as [[[[]|code]|] w2]; cbn [ok negb is_request_exception]; run.
    + destruct (poll_until_restored_run cl index expected_docs max_attempts 0 w2)
        as (restored & w3 & t3 & Hrun & _).
      pose proof (poll_until_restored_events cl read_only index I I I
                    (fun _ _ _ => I) expected_docs max_attempts 0 w2) as Hread.
      rewrite Hrun in *. simpl in Hread.
      do 3 eexists. split; [reflexivity|]. right.
      simpl. rewrite ?restore_actions_app, (read_only_no_actions _ Hread). done.
    + do 3 eexists. split; [reflexivity|]. by right.
    + do 3 eexists. split; [reflexivity|]. by right.
  - do 3 eexists. split; [reflexivity|]. by left.
  - do 3 eexists. split; [reflexivity|]. by left.
Qed.

Lemma get_index_doc_count_actions index c w :
  exists t,
    get_index_doc_count cl index c w
    = (Ok match (cl _ (GetCount c index) w).1 with
          | Some (HttpOk count) => Some count
          | _ => None
          end,
       (cl _ (GetCount c index) w).2, t)
    /\ restore_actions t = [].
Proof.
  destruct (get_index_doc_count_run cl index c w) as (t & Hrun & _).
  pose proof (get_index_doc_count_events cl read_only index c I
                (fun _ _ _ => I) w) as Hread.
  rewrite Hrun in Hread. exists t. split; [done|]. by apply read_only_no_actions.
Qed.

(** The cluster-changing requests that the loop of [main] sends for one
    index are a prefix of: close (only when the index exists locally),
    restore, open. So it never closes an index that is missing locally,
    sends the restore request only after a successful close, and never
    opens an index whose restore it did not see succeed. When the
    expected document count cannot be fetched from the active cluster,
    it sends none of them. *)
Theorem process_index_actions snapshot (local_indices : gmap string local_index) idx w :
  exists w' t,
    process_index cl snapshot local_indices idx w = (Ok tt, w', t)
    /\ restore_actions t `prefix_of` index_actions snapshot local_indices idx
    /\ ((forall count, (cl _ (GetCount ACTIVE_CLUSTER idx) w).1 <> Some (HttpOk count)) ->
        restore_actions t = []).
Proof.
  unfold process_index, index_actions. run.
  destruct (get_index_doc_count_actions idx ACTIVE_CLUSTER w) as (t0 & -> & Ha0).
  destruct (cl _ (GetCount ACTIVE_CLUSTER idx) w) as [[[count|code]|] w1];
    cbn [fst snd]; run.
  2, 3: do 2 eexists; (split; [reflexivity|]); simpl;
    rewrite ?restore_actions_app, Ha0; simpl; split; [apply prefix_nil|done].
  assert (exists closed w2 tc,
            (if bool_decide (is_Some (local_indices !! idx))
             then close_index cl idx else mret true) w1 = (Ok closed, w2, tc)
            /\ restore_actions tc
               = (if bool_decide (is_Some (local_indices !! idx))
                  then [Http (PostClose PASSIVE_CLUSTER idx)] else []))
    as (closed & w2 & tc & -> & Hac).
  { destruct (bool_decide (is_Some (local_indices !! idx))).
    - destruct (close_index_run idx w1) as (tc & -> & Hreq).
      do 3 eexists. split; [reflexivity|].
      by rewrite <- restore_actions_requests, Hreq.
    - by exists true, w1, []. }
  set (closing := if bool_decide (is_Some (local_indices !! idx))
                  then [Http (PostClose PASSIVE_CLUSTER idx)] else []) in *.
  destruct closed; cbn [negb]; run.
  2: { do 2 eexists. split; [reflexivity|]. simpl.
       rewrite ?restore_actions_app, Ha0, Hac, ?app_nil_r. simpl.
       split; [by apply prefix_app_r|].
       intros Hfail. by destruct (Hfail count). }
  destruct (restore_index_actions snapshot idx count w2)
    as (restored & w3 & tr & -> & Har).
  destruct restored; run.
  2: { do 2 eexists. split; [reflexivity|]. simpl.
       rewrite ?restore_actions_app, Ha0, Hac. simpl. split.
       - destruct Har as [[-> _]| ->]; simpl; rewrite ?app_nil_r.
         + by apply prefix_app_r.
         + apply prefix_app, prefix_cons, prefix_nil.
       - intros Hfail. by destruct (Hfail count). }
  destruct Har as [[_ ?]|Har]; [done|].
  destruct (open_index_run idx w3) as (to & -> & Hreqo).
  assert (restore_actions to = [Http (PostOpen PASSIVE_CLUSTER idx)]) as Hao
    by (by rewrite <- restore_actions_requests, Hreqo).
  destruct (match (cl _ (PostOpen PASSIVE_CLUSTER idx) w3).1 with
            | Some (HttpOk _) => true
            | _ => false
            end); run.
  2: { do 2 eexists. split; [reflexivity|]. simpl.
       rewrite ?restore_actions_app, Ha0, Hac, Har, Hao. simpl.
       split; [done|]. intros Hfail. by destruct (Hfail count). }
  destruct (wait_for_green_waits idx max_attempts (cl _ (PostOpen PASSIVE_CLUSTER idx) w3).2)
    as (green & w5 & tw & -> & _ & _ & _ & _ & Hreqw).
  assert (restore_actions tw = []) as Haw
    by (by rewrite <- restore_actions_requests, Hreqw, replicate_read_only).
  destruct green; cbn [negb]; run;
    do 2 eexists; (split; [reflexivity|]); simpl;
    rewrite ?restore_actions_app, Ha0, Hac, Har, Hao, Haw; simpl;
    (split; [done|]); intros Hfail; by destruct (Hfail count).
Qed.
End IndexActions.

Lemma process_index_actions_witness :
  exists w' t,
    process_index sim_api "snap-1" ∅ "logs-1" sim_local_fetch_fails = (Ok tt, w', t)
    /\ restore_actions t `prefix_of` index_actions "snap-1" ∅ "logs-1".
Proof.
  destruct (process_index_actions sim_api "snap-1" ∅ "logs-1" sim_local_fetch_fails)
    as (w' & t & Hrun & Hprefix & _).
  by exists w', t.
Defined.

(** ** The size parser, further *)

Lemma float_of_str_raises s e : float_of_str s = Raise e -> e = ValueError.
Proof.
  unfold float_of_str.
  destruct (take_sign (strip (number_text s))) as [neg l].
  destruct (String.eqb _ "inf" || String.eqb _ "infinity"); [done|].
  destruct (String.eqb _ "nan"); [done|].
  destruct (mantissa l) as [[[m nfrac] rest]|]; [|congruence].
  destruct (exponent rest) as [[exp [|c rest']]|]; congruence.
Qed.

Lemma int_of_str_raises s e : int_of_str s = Raise e -> e = ValueError.
Proof.
  unfold int_of_str.
  destruct (take_sign (strip (number_text s))) as [neg l].
  destruct (digitpart 0 l) as [[[v n] [|c rest]]|]; [|congruence..].
  destruct (INT_MAX_STR_DIGITS <? Z.of_nat n); congruence.
Qed.

Lemma int_of_float_raises x e :
  int_of_float x = Raise e ->
  e = OverflowError /\ (exists s, x = S754_infinity s) \/ e = ValueError.
Proof. destruct x; simpl; intros; simplify_eq; eauto. Qed.

Lemma parse_size_raises size e :
  parse_size size = Raise e -> e = OverflowError \/ e = ValueError.
Proof.
  unfold parse_size. destruct (endswith size "b").
  - destruct (float_of_str (drop_last 2 size)) as [num|e'] eqn:Hnum.
    + intros [[-> _]| ->]%int_of_float_raises; auto.
    + intros [= <-]. right. by eapply float_of_str_raises.
  - intros ->%int_of_str_raises. by right.
Qed.

Lemma size_bytes_result (store_size : option pyval) :
  (exists bytes, size_bytes store_size = Ok bytes)
  \/ size_bytes store_size = Raise OverflowError.
Proof.
  unfold size_bytes.
  destruct (default (PyStr "0b") store_size) as [|s| |]; eauto.
  destruct (String.eqb s ""); eauto.
  destruct (parse_size s) as [n|e] eqn:Hparse; eauto.
  apply parse_size_raises in Hparse as [-> | ->]; simpl; eauto.
Qed.

(** The size parser lets no [ValueError] and no [TypeError] out: for
    every field of a row it gives a size, or raises [OverflowError]. *)
Theorem size_bytes_overflow_only (store_size : option pyval) :
  (exists bytes, size_bytes store_size = Ok bytes)
  \/ size_bytes store_size = Raise OverflowError.
Proof. apply size_bytes_result. Qed.

(** A size with a bare [b]: the slice [size[:-2]] takes the character in
    front of the [b] away with it, whatever character it is, so that the
    number is read without its last character. *)
Theorem size_bytes_bare_b (t ch : string) (num : spec_float) (bytes : Z) :
  one_char ch = true ->
  ch ∉ ["k"; "m"; "g"; "t"] ->
  float_of_str t = Ok num ->
  int_of_float num = Ok bytes ->
  size_bytes (Some (PyStr (t +:+ ch +:+ "b"))) = Ok bytes.
Proof.
  intros Hch Hc Hnum Hbytes. unfold size_bytes. simpl.
  by rewrite append_char_nonempty, (parse_size_b t ch Hch Hc), Hnum, Hbytes.
Qed.

Lemma size_bytes_bare_b_witness :
  size_bytes (Some (PyStr "225b")) = Ok 22
  /\ size_bytes (Some (PyStr "12éb")) = Ok 12.
Proof.
  split.
  - apply (size_bytes_bare_b "22" "5" (S754_finite false 6192449487634432 (-48)) 22).
    + reflexivity.
    + intros Hin.
      repeat (apply elem_of_cons in Hin as [Heq|Hin]; [discriminate|]).
      by apply elem_of_nil in Hin.
    + vm_compute. reflexivity.
    + vm_compute. reflexivity.
  - apply (size_bytes_bare_b "12" "é" (S754_finite false 6755399441055744 (-49)) 12).
    + reflexivity.
    + intros Hin.
      repeat (apply elem_of_cons in Hin as [Heq|Hin]; [discriminate|]).
      by apply elem_of_nil in Hin.
    + vm_compute. reflexivity.
    + vm_compute. reflexivity.
Defined.

(** ** The local indices *)

Lemma docs_of_row_value {World} (idx : cat_row) (w : World) :
  exists t, docs_of_row idx w = (Ok (docs_count (row_docs_count idx)), w, t)
            /\ Forall read_only t.
Proof.
  unfold docs_of_row, docs_count.
  destruct (default (PyStr "0") (row_docs_count idx)) as [|s|z|];
    unfold try_except, lift; simpl.
  - eexists. split; [reflexivity|constructor].
  - destruct (int_of_str s) as [n|e] eqn:Hint.
    + eexists. split; [reflexivity|constructor].
    + apply int_of_str_raises in Hint as ->. simpl.
      eexists. split; [reflexivity|]. by repeat constructor.
  - eexists. split; [reflexivity|constructor].
  - eexists. split; [reflexivity|]. by repeat constructor.
Qed.

Lemma size_bytes_of_row_run {World} (idx : cat_row) (w : World) :
  exists t, size_bytes_of_row idx w = (size_bytes (row_store_size idx), w, t)
            /\ Forall read_only t.
Proof.
  unfold size_bytes_of_row, size_bytes.
  destruct (default (PyStr "0b") (row_store_size idx)) as [|size| |];
    try (eexists; split; [reflexivity|constructor]).
  destruct (String.eqb size ""); [eexists; split; [reflexivity|constructor]|].
  unfold try_except, lift.
  destruct (parse_size size) as [n|e]; [eexists; split; [reflexivity|constructor]|].
  destruct (is_value_or_type_error e); simpl.
  - eexists. split; [reflexivity|]. by repeat constructor.
  - eexists. split; [reflexivity|constructor].
Qed.

(** The dict that the loop of [get_local_indices] builds from rows whose
    sizes parse. *)
Lemma local_indices_of_rows_run {World} rows indices (w : World) :
  Forall (fun row => is_Some (local_index_of_row row)) rows ->
  exists m t,
    local_indices_of_rows rows indices w = (Ok m, w, t)
    /\ Forall read_only t
    /\ forall name,
         m !! name
         = match row_for name rows with
           | Some row => local_index_of_row row
           | None => indices !! name
           end.
Proof.
  revert indices. induction rows as [|row rows IH]; intros indices Hrows.
  - exists indices, []. split; [done|]. split; [constructor|done].
  - apply Forall_cons in Hrows as [[entry Hentry] Hrows].
    cbn [local_indices_of_rows]. run.
    destruct (size_bytes_of_row_run row w) as (t1 & -> & Hr1).
    unfold local_index_of_row in Hentry.
    destruct (size_bytes (row_store_size row)) as [size|e] eqn:Hsize; [|done].
    run. destruct (docs_of_row_value row w) as (t2 & -> & Hr2). run.
    destruct (IH (<[row_index row := LocalIndex (docs_count (row_docs_count row)) size]>
                    indices) Hrows) as (m & t3 & -> & Hr3 & Hm).
    exists m, (t1 ++ t2 ++ t3). split; [done|]. split; [by rewrite !Forall_app|].
    intros name. rewrite Hm. unfold row_for. rewrite filter_cons.
    destruct (decide (row_index row = name)) as [<-|Hne].
    + destruct (filter _ rows) as [|row' rows'] eqn:Hfilter.
      * simpl. rewrite lookup_insert_eq.
        unfold local_index_of_row. by rewrite Hsize.
      * rewrite last_cons_cons, (last_cons row'). by destruct (last rows').
    + destruct (last (filter _ rows)); [done|]. by rewrite lookup_insert_ne.
Qed.

(** On an OK answer whose sizes all parse, [get_local_indices] returns the
    dict that has, for each index name of the answer, the document count
    and the size of the last row of this name, and nothing else. *)
Theorem get_local_indices_entries {World} (cl : api World) w w1 rows :
  cl _ (CatIndices PASSIVE_CLUSTER) w = (Some (HttpOk rows), w1) ->
  Forall (fun row => is_Some (local_index_of_row row)) rows ->
  exists m t,
    get_local_indices cl w = (Ok (Some m), w1, t)
    /\ forall name, m !! name = row_for name rows ≫= local_index_of_row.
Proof.
  intros Hcat Hrows. unfold get_local_indices, try_except. run. rewrite Hcat.
  run_checked.
  destruct (local_indices_of_rows_run rows ∅ w1 Hrows) as (m & t & -> & _ & Hm).
  run_checked. exists m. eexists. split; [reflexivity|].
  intros name. rewrite Hm. destruct (row_for name rows); [done|].
  by rewrite lookup_empty.
Qed.

Lemma get_local_indices_entries_witness :
  let rows := [CatRow "logs-1" (Some (PyStr "7")) (Some (PyStr "1kb"));
               CatRow "logs-2" None (Some PyNone);
               CatRow "logs-1" (Some (PyStr "12")) (Some (PyStr "3mb"))] in
  let w := Sim None None None (Some (HttpOk rows)) None None None [] in
  exists m t,
    get_local_indices sim_api w = (Ok (Some m), w, t)
    /\ forall name, m !! name = row_for name rows ≫= local_index_of_row.
Proof.
  intros rows w.
  apply (get_local_indices_entries sim_api w w rows); [reflexivity|].
  repeat constructor; eexists; vm_compute; reflexivity.
Defined.

(** One row whose size overflows ends [get_local_indices], and with it
    the run, in an [OverflowError]; the [except] clauses of lines 125 and
    143 do not catch it. *)
Theorem get_local_indices_overflow {World} (cl : api World) w w1 rows :
  cl _ (CatIndices PASSIVE_CLUSTER) w = (Some (HttpOk rows), w1) ->
  Exists (fun row => size_bytes (row_store_size row) = Raise OverflowError) rows ->
  (get_local_indices cl w).1.1 = Raise OverflowError.
Proof.
  intros Hcat Hrows. unfold get_local_indices, try_except. run. rewrite Hcat.
  run_checked.
  assert (forall indices, (local_indices_of_rows rows indices w1).1.1 = Raise OverflowError)
    as Hraise.
  { clear Hcat. induction Hrows as [row rows Hrow|row rows _ IH]; intros indices;
      cbn [local_indices_of_rows]; run;
      destruct (size_bytes_of_row_run row w1) as (t1 & -> & _).
    - by rewrite Hrow.
    - destruct (size_bytes_result (row_store_size row)) as [[size ->]| ->];
        [|done].
      run. destruct (docs_of_row_value row w1) as (t2 & -> & _). run.
      specialize (IH (<[row_index row :=
                         LocalIndex (docs_count (row_docs_count row)) size]> indices)).
      by destruct (local_indices_of_rows rows _ w1) as [[r w2] t3]; simplify_eq/=. }
  specialize (Hraise ∅).
  destruct (local_indices_of_rows rows ∅ w1) as [[r w2] t]. simpl in Hraise. subst r.
  done.
Qed.

Lemma get_local_indices_overflow_witness :
  (get_local_indices sim_api
     (Sim None None None
        (Some (HttpOk [CatRow "logs-1" (Some (PyStr "7")) (Some (PyStr "1kb"));
                       CatRow "logs-2" (Some (PyStr "1")) (Some (PyStr "1e999gb"))]))
        None None None [])).1.1
  = Raise OverflowError.
Proof.
  eapply get_local_indices_overflow; [reflexivity|].
  apply Exists_cons_tl, Exists_cons_hd. by vm_compute.
Defined.

Lemma get_local_indices_failure_witness :
  exists t,
    get_local_indices sim_api sim_local_fetch_fails
    = (Ok (Some ∅), sim_local_fetch_fails, t).
Proof.
  apply (get_local_indices_failure sim_api sim_local_fetch_fails sim_local_fetch_fails None);
    [reflexivity|discriminate].
Defined.

(** ** The prerequisites of a run *)

Section Prerequisites.
Context {World : Type} (cl : api World).
Implicit Types (w : World) (snapshot : string).

(** [verify_repository] returns [True] exactly when both of its requests
    are answered with an OK status, and it sends the status request only
    after an OK answer to the first; it raises nothing. *)
Theorem verify_repository_run (cluster_config : cluster) (repo_name : string) w :
  let first := cl _ (GetRepository cluster_config repo_name) w in
  let second := cl _ (GetRepositoryStatus cluster_config repo_name) first.2 in
  exists t,
    verify_repository cl cluster_config repo_name w
    = (Ok match first.1, second.1 with
          | Some (HttpOk _), Some (HttpOk _) => true
          | _, _ => false
          end,
       match first.1 with
       | Some (HttpOk _) => second.2
       | _ => first.2
       end, t)
    /\ requests t
       = match first.1 with
         | Some (HttpOk _) =>
             [Http (GetRepository cluster_config repo_name);
              Http (GetRepositoryStatus cluster_config repo_name)]
         | _ => [Http (GetRepository cluster_config repo_name)]
         end.
Proof.
  intros first second. subst first second.
  unfold verify_repository, try_except. run.
  destruct (cl _ (GetRepository cluster_config repo_name) w) as [[[[]|code]|] w1];
    run_checked; cbn [fst snd is_request_exception]; run_checked.
  - destruct (cl _ (GetRepositoryStatus cluster_config repo_name) w1)
      as [[[[]|code]|] w2];
      run_checked; cbn [fst snd is_request_exception]; run_checked;
      eexists; (split; [reflexivity|done]).
  - eexists. split; [reflexivity|done].
  - eexists. split; [reflexivity|done].
Qed.

(** [verify_snapshot_exists] sends its one request and tells whether it
    was answered with an OK status; it raises nothing. *)
Theorem verify_snapshot_exists_run snapshot w :
  exists t,
    verify_snapshot_exists cl snapshot w
    = (Ok match (cl _ (GetSnapshot PASSIVE_CLUSTER SNAPSHOT_REPO snapshot) w).1 with
          | Some (HttpOk _) => true
          | _ => false
          end,
       (cl _ (GetSnapshot PASSIVE_CLUSTER SNAPSHOT_REPO snapshot) w).2, t)
    /\ requests t = [Http (GetSnapshot PASSIVE_CLUSTER SNAPSHOT_REPO snapshot)].
Proof.
  unfold verify_snapshot_exists, try_except. run.
  destruct (cl _ (GetSnapshot PASSIVE_CLUSTER SNAPSHOT_REPO snapshot) w)
    as [[[[]|code]|] w1];
    run_checked; cbn [is_request_exception]; run_checked;
    eexists; (split; [reflexivity|done]).
Qed.
End Prerequisites.

Lemma ltb_le a b : String.ltb a b = true -> String.le a b.
Proof.
  unfold String.le, String.ltb, String.leb.
  by destruct (String.compare a b).
Qed.

Lemma not_ltb_le a b : String.ltb a b = false -> String.le b a.
Proof.
  unfold String.le, String.ltb, String.leb. rewrite (String.compare_antisym a b).
  by destruct (String.compare b a).
Qed.

(** [max] with the key [end_epoch] gives an entry of the list than which
    none has a larger key. *)
Lemma max_end_epoch_spec best snapshots :
  max_end_epoch best snapshots ∈ best :: snapshots
  /\ forall s, s ∈ best :: snapshots ->
       String.le (snap_end_epoch s) (snap_end_epoch (max_end_epoch best snapshots)).
Proof.
  revert best. induction snapshots as [|s snapshots IH]; intros best; simpl.
  - split; [left|]. by intros s ->%list_elem_of_singleton.
  - destruct (String.ltb (snap_end_epoch best) (snap_end_epoch s)) eqn:Hlt.
    + destruct (IH s) as [Hin Hmax]. split; [by right|].
      intros s' [->|Hs']%elem_of_cons; [|by apply Hmax].
      etrans; [by apply ltb_le|]. apply Hmax. left.
    + destruct (IH best) as [Hin Hmax]. split.
      { apply elem_of_cons in Hin as [->|Hin]; [left|by do 2 right]. }
      intros s' [->|[->|Hs']%elem_of_cons]%elem_of_cons.
      * apply Hmax. left.
      * etrans; [by apply not_ltb_le|]. apply Hmax. left.
      * apply Hmax. by right.
Qed.

Lemma int_truediv_raises a b e : int_truediv a b = Raise e -> e = OverflowError.
Proof.
  unfold int_truediv. destruct a as [|a|a]; [done|..];
    destruct (SFdiv_core_binary _ _ _ _ _ _) as [[q ex] loc];
    destruct (binary_round_aux _ _ _ _ _ _); congruence.
Qed.

Lemma datetime_of_raises t e :
  datetime_of t = Raise e -> e = ValueError \/ e = OverflowError \/ e = OSError.
Proof. destruct t; simpl; intros; simplify_eq; auto. Qed.

(** On an OK answer to the snapshot listing, [get_latest_snapshot] returns
    [None] only for the empty list. Otherwise it takes a listed snapshot
    whose [end_epoch] no other exceeds (as strings) and returns its id
    when the log line can be written: when [end_epoch] is an integer, a
    thousandth of it is in the range of a float, and the platform has a
    local time for it. When not, the exception of the failing step leaves
    the function: the [ValueError] of [int], the [OverflowError] of the
    division, or what [datetime.fromtimestamp] raises. *)
Theorem get_latest_snapshot_latest {World} (cl : api World) fromtimestamp
    (w w1 : World) snapshots :
  cl _ (CatSnapshots ACTIVE_CLUSTER SNAPSHOT_REPO) w = (Some (HttpOk snapshots), w1) ->
  match (get_latest_snapshot cl fromtimestamp w).1.1 with
  | Ok None => snapshots = []
  | Ok (Some id) =>
      exists s n seconds,
        s ∈ snapshots /\ id = snap_id s
        /\ (forall s', s' ∈ snapshots ->
              String.le (snap_end_epoch s') (snap_end_epoch s))
        /\ int_of_str (snap_end_epoch s) = Ok n
        /\ int_truediv n 1000 = Ok seconds
        /\ fromtimestamp seconds = LocalTime
  | Raise e =>
      exists s,
        s ∈ snapshots
        /\ (forall s', s' ∈ snapshots ->
              String.le (snap_end_epoch s') (snap_end_epoch s))
        /\ (int_of_str (snap_end_epoch s) = Raise ValueError /\ e = ValueError
            \/ exists n,
                 int_of_str (snap_end_epoch s) = Ok n
                 /\ (int_truediv n 1000 = Raise OverflowError /\ e = OverflowError
                     \/ exists seconds,
                          int_truediv n 1000 = Ok seconds
                          /\ datetime_of (fromtimestamp seconds) = Raise e))
  end.
Proof.
  intros Hcat. unfold get_latest_snapshot, try_except. run. rewrite Hcat. run_checked.
  destruct snapshots as [|s snapshots]; run_checked; [done|].
  destruct (max_end_epoch_spec s snapshots) as [Hin Hmax].
  set (latest := max_end_epoch s snapshots) in *.
  unfold lift.
  destruct (int_of_str (snap_end_epoch latest)) as [n|e] eqn:Hint;
    run_checked; cbn [fst].
  2: { apply int_of_str_raises in Hint as Heq. subst e. simpl.
       exists latest. split_and!; eauto. }
  destruct (int_truediv n 1000) as [seconds|e] eqn:Hdiv; run_checked; cbn [fst].
  2: { apply int_truediv_raises in Hdiv as Heq. subst e. simpl.
       exists latest. split_and!; eauto 10. }
  destruct (fromtimestamp seconds) eqn:Htime; simpl; run_checked; cbn [fst].
  - exists latest, n, seconds. split_and!; eauto.
  - exists latest. split_and!; eauto. right. exists n. split; [done|]. right.
    exists seconds. by rewrite Htime.
  - exists latest. split_and!; eauto. right. exists n. split; [done|]. right.
    exists seconds. by rewrite Htime.
  - exists latest. split_and!; eauto. right. exists n. split; [done|]. right.
    exists seconds. by rewrite Htime.
Qed.

Lemma get_latest_snapshot_latest_witness :
  let snapshots := [SnapshotRow "snap-1" "1700000000";
                    SnapshotRow "snap-2" "1700000500";
                    SnapshotRow "snap-3" "1700000200"] in
  let w := Sim None (Some (HttpOk snapshots)) None None None None None [] in
  exists s n seconds,
    s ∈ snapshots /\ "snap-2" = snap_id s
    /\ (forall s', s' ∈ snapshots -> String.le (snap_end_epoch s') (snap_end_epoch s))
    /\ int_of_str (snap_end_epoch s) = Ok n
    /\ int_truediv n 1000 = Ok seconds
    /\ sim_fromtimestamp seconds = LocalTime.
Proof.
  intros snapshots w.
  exact (get_latest_snapshot_latest sim_api sim_fromtimestamp w w snapshots eq_refl).
Defined.

(** ** A whole run *)

Lemma pick_indices_to_restore_not_system snapshot_indices local_indices idx :
  idx ∈ pick_indices_to_restore snapshot_indices local_indices ->
  is_system_index idx = false.
Proof.
  destruct (pick_indices_to_restore_prefix snapshot_indices local_indices)
    as (picked & rest & Hsplit & -> & _).
  intros ([i s] & -> & Hin)%list_elem_of_fmap.
  assert ((i, s) ∈ to_restore snapshot_indices local_indices) as Hcand.
  { rewrite <- sort_largest_first_perm, Hsplit. apply elem_of_app. by left. }
  by apply elem_of_to_restore in Hcand as (_ & ? & _).
Qed.

Lemma to_restore_log_logs items local_indices P :
  (forall lvl template args, P (Log lvl template args)) ->
  Forall P (to_restore_log items local_indices).
Proof.
  intros Hlog. induction items as [|[idx size] items IH]; simpl; [constructor|].
  apply Forall_app. split; [|done].
  destruct (is_system_index idx); [by repeat constructor|].
  destruct (needs_restore local_indices idx size); by repeat constructor.
Qed.

Lemma fill_batch_log_logs sorted total P :
  (forall lvl template args, P (Log lvl template args)) ->
  Forall P (fill_batch_log sorted total).
Proof.
  intros Hlog. revert total.
  induction sorted as [|[idx size] sorted IH]; intros total; simpl; [constructor|].
  destruct (total + size >? MAX_RESTORE_BYTES); [by repeat constructor|apply IH].
Qed.

Section Run.
Context {World : Type} (cl : api World) (fromtimestamp : spec_float -> local_time).
Implicit Types (w : World) (snapshot idx : string).

(** A predicate on events that holds of every log line, every sleep and
    every request but a restore request. *)
Context (P : event -> Prop).
Hypothesis Hlog : forall lvl template args, P (Log lvl template args).
Hypothesis Hsleep : forall seconds, P (Sleep seconds).
Hypothesis Hrequest : forall B (r : request B), not_restore_request (Http r) -> P (Http r).

Lemma verify_repository_events c repo : events_all P (verify_repository cl c repo).
Proof.
  unfold verify_repository. events; try (apply Hrequest; exact I).
  all: destruct has_response; events.
Qed.

Lemma get_latest_snapshot_events : events_all P (get_latest_snapshot cl fromtimestamp).
Proof. unfold get_latest_snapshot. events; apply Hrequest; exact I. Qed.

Lemma get_snapshot_indices_events snapshot : events_all P (get_snapshot_indices cl snapshot).
Proof. unfold get_snapshot_indices. events; apply Hrequest; exact I. Qed.

Lemma local_indices_of_rows_events rows indices :
  events_all P (local_indices_of_rows rows indices : M World _).
Proof.
  revert indices. induction rows as [|row rows IH]; intros indices;
    cbn [local_indices_of_rows]; [events|].
  apply events_all_bind; [|intros size].
  { unfold size_bytes_of_row. events. }
  apply events_all_bind; [|intros docs; apply IH].
  unfold docs_of_row. events.
Qed.

Lemma get_local_indices_events : events_all P (get_local_indices cl).
Proof.
  unfold get_local_indices.
  apply events_all_try; [|intros e; events].
  apply events_all_bind; [apply events_all_send, Hrequest; exact I|intros r].
  apply events_all_bind; [events|intros rows].
  apply events_all_bind; [apply local_indices_of_rows_events|intros indices; events].
Qed.

Lemma select_batch_events snapshot_indices local_indices :
  events_all P (select_batch snapshot_indices local_indices : M World _).
Proof.
  intros w. unfold select_batch. simpl. apply Forall_app.
  split; [by apply to_restore_log_logs|by apply fill_batch_log_logs].
Qed.

Lemma close_index_events idx : events_all P (close_index cl idx).
Proof. unfold close_index. events; apply Hrequest; exact I. Qed.

Lemma open_index_events idx : events_all P (open_index cl idx).
Proof. unfold open_index. events; apply Hrequest; exact I. Qed.

Lemma wait_for_green_events idx bound : events_all P (wait_for_green cl idx bound).
Proof.
  unfold wait_for_green. generalize bound at 2. intros remaining.
  induction remaining as [|remaining IH]; cbn [wait_until_green]; [events|].
  apply events_all_bind; [|intros green; destruct green; [events|apply IH]].
  apply events_all_try; [|intros e; events].
  apply events_all_bind; [apply events_all_send, Hrequest; exact I|intros r].
  apply events_all_bind; [events|intros status].
  destruct (String.eqb status "green"); events.
Qed.

(** The loop body sends no restore request but that of its own index. *)
Lemma process_index_events snapshot local_indices idx :
  P (Http (PostRestore PASSIVE_CLUSTER SNAPSHOT_REPO snapshot idx false true)) ->
  events_all P (process_index cl snapshot local_indices idx).
Proof.
  intros Hidx. unfold process_index.
  apply events_all_bind; [events|intros _].
  apply events_all_bind;
    [apply get_index_doc_count_events; [apply Hrequest; exact I|done]|intros expected].
  destruct expected as [expected_docs|]; [|events].
  apply events_all_bind; [|intros closed].
  { destruct (bool_decide _); [apply close_index_events|events]. }
  destruct (negb closed); [events|].
  apply events_all_bind; [|intros restored].
  { intros w. eapply Forall_impl; [apply restore_index_trace|].
    intros [B r| |]; [|intros _; apply Hsleep|intros _; apply Hlog].
    destruct r; simpl; try done; try (intros _; apply Hrequest; exact I).
    by intros (-> & -> & -> & -> & -> & ->). }
  destruct restored; [|events].
  apply events_all_bind; [apply open_index_events|intros opened].
  destruct opened; [|events].
  apply events_all_bind; [apply wait_for_green_events|intros green].
  destruct (negb green); events.
Qed.

Lemma restore_batch_events snapshot local_indices batch :
  Forall (fun idx =>
            P (Http (PostRestore PASSIVE_CLUSTER SNAPSHOT_REPO snapshot idx false true)))
    batch ->
  events_all P (restore_batch cl snapshot local_indices batch).
Proof.
  induction 1 as [|idx batch Hidx _ IH]; cbn [restore_batch]; [events|].
  apply events_all_bind; [by apply process_index_events|intros _; apply IH].
Qed.
End Run.

(** Whatever the clusters answer, a run sends no restore request for a
    system index, and every restore request it sends goes to the passive
    cluster, for the shared repository, without the global state and
    with the aliases. *)
Theorem main_never_restores_system_index {World} (cl : api World) fromtimestamp
    (w : World) :
  Forall (fun e =>
            match e with
            | Http (PostRestore c repo _ index global_state aliases) =>
                is_system_index index = false
                /\ c = PASSIVE_CLUSTER /\ repo = SNAPSHOT_REPO
                /\ global_state = false /\ aliases = true
            | _ => True
            end)
    (main cl fromtimestamp w).2.
Proof.
  revert w.
  set (P := fun e : event => match e with
            | Http (PostRestore c repo _ index global_state aliases) =>
                is_system_index index = false
                /\ c = PASSIVE_CLUSTER /\ repo = SNAPSHOT_REPO
                /\ global_state = false /\ aliases = true
            | _ => True
            end).
  change (events_all P (main cl fromtimestamp)).
  assert (forall lvl template args, P (Log lvl template args)) as Hlog by done.
  assert (forall seconds, P (Sleep seconds)) as Hsleep by done.
  assert (forall B (r : request B), not_restore_request (Http r) -> P (Http r)) as Hreq
    by (intros B r; by destruct r).
  unfold main.
  apply events_all_bind; [events|intros _].
  apply events_all_bind; [by apply verify_repository_events|intros repository].
  destruct (negb repository); [events|].
  apply events_all_bind; [by apply get_latest_snapshot_events|intros snapshot].
  destruct snapshot as [[|c snapshot]|]; [events| |events].
  apply events_all_bind; [by apply get_snapshot_indices_events|intros snap_indices].
  destruct snap_indices as [|item snap_indices]; [events|].
  apply events_all_bind; [by apply get_local_indices_events|intros local_indices].
  destruct local_indices as [local_indices|]; [|events].
  apply (events_all_bind_value P
           (fun batch => Forall (fun idx => is_system_index idx = false) batch));
    [by apply select_batch_events| |].
  { intros w batch w' t [= <- _ _]. apply Forall_forall.
    intros idx. apply pick_indices_to_restore_not_system. }
  intros [|idx batch] Hbatch; [events|].
  apply events_all_bind; [|intros _; events].
  apply restore_batch_events; [done..|].
  eapply Forall_impl; [exact Hbatch|]. by intros idx' Hidx'.
Qed.

(** ** What can leave a run *)

Section Raises.
Context {World : Type} (cl : api World) (fromtimestamp : spec_float -> local_time).

Lemma raises_only_total {A} allowed (m : M World A) : total m -> raises_only allowed m.
Proof. apply raises_only_weaken. done. Qed.

Lemma raises_only_request {A} (allowed : exn -> bool) (m : M World A) :
  raises_only is_request_exception m ->
  raises_only (fun e => is_request_exception e || allowed e) m.
Proof. apply raises_only_weaken. intros e ->. done. Qed.

Lemma total_verify_repository c repo : total (verify_repository cl c repo).
Proof.
  apply total_try_request; [|intros e]; unfold log; effects.
  destruct e as [[]| | | |]; effects.
Qed.

Lemma total_get_snapshot_indices snapshot : total (get_snapshot_indices cl snapshot).
Proof. apply total_try_request; [|intros e]; unfold log; effects. Qed.

Lemma raises_only_get_latest_snapshot :
  raises_only is_value_overflow_or_os_error (get_latest_snapshot cl fromtimestamp).
Proof.
  unfold get_latest_snapshot.
  apply (raises_only_try
           (fun e => is_request_exception e || is_value_overflow_or_os_error e)).
  - apply raises_only_bind; [apply raises_only_request, raises_only_send|intros r].
    apply raises_only_bind;
      [apply raises_only_request, raises_only_raise_for_status|intros snapshots].
    destruct snapshots as [|s snapshots]; [unfold log; effects|].
    apply raises_only_bind;
      [apply raises_only_lift; by intros e ->%int_of_str_raises|intros n].
    apply raises_only_bind;
      [apply raises_only_lift; by intros e ->%int_truediv_raises|intros seconds].
    apply raises_only_bind; [|intros _; unfold log; effects].
    apply raises_only_lift. by intros e [->|[->| ->]]%datetime_of_raises.
  - intros e. unfold log. effects.
  - intros e He Hc. rewrite Hc in He. done.
Qed.

Lemma raises_only_local_indices_of_rows rows indices :
  raises_only is_value_or_overflow_error
    (local_indices_of_rows rows indices : M World _).
Proof.
  revert indices. induction rows as [|row rows IH]; intros indices;
    cbn [local_indices_of_rows]; [effects|].
  apply raises_only_bind; [|intros size].
  { intros w. destruct (size_bytes_of_row_run row w) as (t & -> & _). simpl.
    by destruct (size_bytes_result (row_store_size row)) as [[n ->]| ->]. }
  apply raises_only_bind; [|intros docs; apply IH].
  intros w. by destruct (docs_of_row_value row w) as (t & -> & _).
Qed.

Lemma raises_only_get_local_indices :
  raises_only is_value_or_overflow_error (get_local_indices cl).
Proof.
  unfold get_local_indices.
  apply (raises_only_try
           (fun e => is_request_exception e || is_value_or_overflow_error e)).
  - apply raises_only_bind; [apply raises_only_request, raises_only_send|intros r].
    apply raises_only_bind;
      [apply raises_only_request, raises_only_raise_for_status|intros rows].
    apply raises_only_bind; [|intros indices; effects].
    eapply raises_only_weaken; [|apply raises_only_local_indices_of_rows].
    intros e ->. by rewrite orb_true_r.
  - intros e. unfold log. effects.
  - intros e He Hc. rewrite Hc in He. done.
Qed.

(** No failure of a request ends a run with an exception: whatever the
    clusters answer and the platform does, the only exceptions that can
    leave [main] are those of the log line of [get_latest_snapshot] (the
    [ValueError] of [int], the [OverflowError] of the division, and the
    [ValueError], [OverflowError] or [OSError] of
    [datetime.fromtimestamp]) and the [OverflowError] of the size
    parser. *)
Theorem main_raises_no_request_exception (w : World) :
  match (main cl fromtimestamp w).1.1 with
  | Ok _ => True
  | Raise e => e = ValueError \/ e = OverflowError \/ e = OSError
  end.
Proof.
  assert (raises_only is_value_overflow_or_os_error (main cl fromtimestamp)) as Hmain.
  { unfold main.
    apply raises_only_bind; [unfold log; effects|intros _].
    apply raises_only_bind;
      [apply raises_only_total, total_verify_repository|intros repository].
    destruct (negb repository); [unfold log; effects|].
    apply raises_only_bind; [apply raises_only_get_latest_snapshot|intros snapshot].
    destruct snapshot as [[|c snapshot]|]; [unfold log; effects| |unfold log; effects].
    apply raises_only_bind;
      [apply raises_only_total, total_get_snapshot_indices|intros snap_indices].
    destruct snap_indices as [|item snap_indices]; [unfold log; effects|].
    apply raises_only_bind; [|intros local_indices].
    { eapply raises_only_weaken; [|apply raises_only_get_local_indices].
      by intros [] He. }
    destruct local_indices as [local_indices|]; [|unfold log; effects].
    apply raises_only_bind; [done|intros batch].
    destruct batch as [|idx batch]; [unfold log; effects|].
    apply raises_only_bind; [|intros _; unfold log; effects].
    intros w'.
    by destruct (restore_batch_run cl (String c snapshot) local_indices (idx :: batch) w')
      as (w'' & t & -> & _). }
  specialize (Hmain w). destruct ((main cl fromtimestamp w).1.1) as [|e]; [done|].
  destruct e; simpl in Hmain; try done; auto.
Qed.
End Raises.

(** The exceptions of the log line do end a run. With the latest
    snapshot at the end time ["100000000000000000000"], which is 1e17
    seconds, a run raises [OSError] on a platform whose C [localtime]
    fails there; and whatever the platform, an end time that is no
    number, or one of more digits than [int] converts, ends the run in a
    [ValueError], and one whose thousandth is beyond the floats in an
    [OverflowError]; all three after the repository check and the
    snapshot listing, with no further request. *)
Lemma main_raises_from_log_line fromtimestamp :
  let run end_epoch :=
    main sim_api fromtimestamp
      (Sim (Some (HttpOk tt)) (Some (HttpOk [SnapshotRow "snap-1" end_epoch]))
         None None None None None []) in
  (fromtimestamp (S754_finite false 6250000000000000 4) = LocaltimeFailed ->
   (run "100000000000000000000").1.1 = Raise OSError)
  /\ (run "n/a").1.1 = Raise ValueError
  /\ (run (str (repeat "9"%char 4301))).1.1 = Raise ValueError
  /\ (run (str (repeat "9"%char 400))).1.1 = Raise OverflowError.
Proof.
  intros run. subst run. cbv beta. split; [|split; [|split]].
  - intros Htime. unfold main.
    cbv -[get_snapshot_indices get_local_indices select_batch restore_batch].
    rewrite Htime. reflexivity.
  - vm_compute. reflexivity.
  - vm_compute. reflexivity.
  - vm_compute. reflexivity.
Qed.

(** ** The dashboard's ten largest indices *)

(** [top_10] holds ten entries of the list, or all of them when there
    are fewer, in descending order of size, and no entry that it leaves
    out is larger than one that it holds. *)
Theorem top_10_largest (index_stats : list (string * Z)) :
  length (top_10 index_stats) = (10 `min` length index_stats)%nat
  /\ StronglySorted (fun a b => a.2 >= b.2) (top_10 index_stats)
  /\ exists rest,
       top_10 index_stats ++ rest ≡ₚ index_stats
       /\ forall a b, a ∈ top_10 index_stats -> b ∈ rest -> a.2 >= b.2.
Proof.
  unfold top_10.
  pose proof (sort_largest_first_descending index_stats) as Hdesc.
  pose proof (sort_largest_first_perm index_stats) as Hperm.
  unfold sort_largest_first in *.
  set (sorted := sort_by_key (fun x => - x.2) index_stats) in *.
  rewrite <- (take_drop 10 sorted) in Hdesc, Hperm.
  split_and!.
  - rewrite length_take. f_equal. subst sorted.
    apply Permutation_length, sort_by_key_perm.
  - by eapply StronglySorted_app_1_l.
  - exists (drop 10 sorted). split; [done|].
    intros a b Ha Hb.
    exact (StronglySorted_app_1_elem_of (fun a b : string * Z => a.2 >= b.2)
             _ _ a b Hdesc Ha Hb).
Qed.

(** ** The prerequisites that end a run *)

(** A run ends at once, with no request after those of the failed step,
    when [verify_repository] returns [False], when [get_latest_snapshot]
    returns [None] or an empty id, and when [get_snapshot_indices]
    returns the empty dict. *)
Theorem main_aborts_on_failed_prerequisite {World} (cl : api World) fromtimestamp
    (w : World) :
  (forall w1 t1,
     verify_repository cl PASSIVE_CLUSTER SNAPSHOT_REPO w = (Ok false, w1, t1) ->
     exists t, main cl fromtimestamp w = (Ok tt, w1, t) /\ requests t = requests t1)
  /\ (forall w1 t1 snapshot w2 t2,
        verify_repository cl PASSIVE_CLUSTER SNAPSHOT_REPO w = (Ok true, w1, t1) ->
        get_latest_snapshot cl fromtimestamp w1 = (Ok snapshot, w2, t2) ->
        snapshot = None \/ snapshot = Some "" ->
        exists t,
          main cl fromtimestamp w = (Ok tt, w2, t) /\ requests t = requests t1 ++ requests t2)
  /\ (forall w1 t1 c snapshot w2 t2 w3 t3,
        verify_repository cl PASSIVE_CLUSTER SNAPSHOT_REPO w = (Ok true, w1, t1) ->
        get_latest_snapshot cl fromtimestamp w1 = (Ok (Some (String c snapshot)), w2, t2) ->
        get_snapshot_indices cl (String c snapshot) w2 = (Ok [], w3, t3) ->
        exists t,
          main cl fromtimestamp w = (Ok tt, w3, t)
          /\ requests t = requests t1 ++ requests t2 ++ requests t3).
Proof.
  split_and!.
  - intros w1 t1 Hrepo. eexists. split; [by apply main_aborts_without_repository|].
    rewrite !requests_app. simpl. by rewrite app_nil_r.
  - intros w1 t1 snapshot w2 t2 Hrepo Hsnap Hnone. eexists.
    split; [by eapply main_aborts_without_snapshot|].
    rewrite !requests_app. simpl. by rewrite app_nil_r.
  - intros w1 t1 c snapshot w2 t2 w3 t3 Hrepo Hsnap Hind. eexists.
    split; [by eapply main_aborts_without_snapshot_indices|].
    rewrite !requests_app. simpl. by rewrite app_nil_r.
Qed.

Lemma main_aborts_on_failed_prerequisite_witness :
  let w := Sim (Some (HttpError 404)) None None None None None None [] in
  exists t,
    main sim_api sim_fromtimestamp w = (Ok tt, w, t)
    /\ requests t = [Http (GetRepository PASSIVE_CLUSTER SNAPSHOT_REPO)].
Proof.
  intros w.
  destruct (proj1 (main_aborts_on_failed_prerequisite sim_api sim_fromtimestamp w) w
              (verify_repository sim_api PASSIVE_CLUSTER SNAPSHOT_REPO w).2
              eq_refl) as (t & Hrun & Hreq).
  exists t. split; [exact Hrun|]. rewrite Hreq. reflexivity.
Defined.
